(** * IPython.nbconvert.filters.markdown: the markdown/html splitter

    A shallow embedding of [MarkdownSplitParser] and of
    [extended_markdown2latex] (src/IPython/nbconvert/filters/markdown.py),
    with the Python objects the code manipulates written out: heterogeneous
    lists for the entries of [splitlist], exceptions as an error result,
    the class-level lists shared by every parser instance. *)

From Stdlib Require Import List String Ascii ZArith Lia Bool Arith.
Import ListNotations.
Open Scope string_scope.
Open Scope list_scope.
Open Scope Z_scope.

(** ** Python values and exceptions *)

(** The entries of [splitlist] are Python lists mixing strings and ints:
    [['html', pos]], then [['html', pos, end]], then
    [['html', pos, end, text]]. *)
Inductive pyval : Type :=
| PStr (s : string)
| PInt (z : Z).

Definition entry : Type := list pyval.

(** Exceptions by class; [Exc] stands for any class other than the two
    builtin ones the splitter itself can raise. *)
Inductive pyexc : Type :=
| IndexError
| TypeError
| Exc (name : string).

Inductive result (A : Type) : Type :=
| Ok (a : A)
| Raise (e : pyexc).
Arguments Ok {A} a.
Arguments Raise {A} e.

Definition bind {A B : Type} (m : result A) (k : A -> result B) : result B :=
  match m with
  | Ok a => k a
  | Raise e => Raise e
  end.

Notation "x <- m ;; k" := (bind m (fun x => k))
  (at level 61, m at next level, right associativity).

(** [==] on the values met here: equal strings, equal ints; a string and
    an int are never equal (and comparing them raises nothing). *)
Definition py_eq (a b : pyval) : bool :=
  match a, b with
  | PStr x, PStr y => String.eqb x y
  | PInt x, PInt y => Z.eqb x y
  | _, _ => false
  end.

(** ** Python list operations *)

Definition len {A : Type} (l : list A) : Z := Z.of_nat (List.length l).

(** A subscript [i] names position [i], or [len + i] when negative. *)
Definition norm_index {A : Type} (l : list A) (i : Z) : option nat :=
  let k := if i <? 0 then i + len l else i in
  if (k <? 0) || (len l <=? k) then None else Some (Z.to_nat k).

(** [l[i]] *)
Definition py_index {A : Type} (l : list A) (i : Z) : result A :=
  match norm_index l i with
  | None => Raise IndexError
  | Some k =>
      match nth_error l k with
      | Some x => Ok x
      | None => Raise IndexError
      end
  end.

Fixpoint update_nth {A : Type} (k : nat) (f : A -> A) (l : list A) : list A :=
  match l, k with
  | [], _ => []
  | x :: l', O => f x :: l'
  | x :: l', S k' => x :: update_nth k' f l'
  end.

(** [l[i].append(v)]: the list object at position [i] grows in place. *)
Definition append_at (l : list entry) (i : Z) (v : pyval) : result (list entry) :=
  match norm_index l i with
  | None => Raise IndexError
  | Some k => Ok (update_nth k (fun e => e ++ [v]) l)
  end.

Fixpoint remove_nth {A : Type} (k : nat) (l : list A) : list A :=
  match l, k with
  | [], _ => []
  | _ :: l', O => l'
  | x :: l', S k' => x :: remove_nth k' l'
  end.

(** [l.pop(i)], keeping only the list that is left. *)
Definition py_pop_at {A : Type} (l : list A) (i : Z) : result (list A) :=
  match norm_index l i with
  | None => Raise IndexError
  | Some k => Ok (remove_nth k l)
  end.

(** [l.pop()] *)
Definition py_pop {A : Type} (l : list A) : result (list A) :=
  py_pop_at l (-1).

(** ** Python string operations *)

Definition slen (s : string) : Z := Z.of_nat (String.length s).

(** [s[a:b]] for ints: negative bounds count from the end, all bounds are
    clamped to the string. *)
Definition slice (s : string) (a b : Z) : string :=
  let clamp i := if i <? 0 then Z.max 0 (i + slen s) else Z.min i (slen s) in
  substring (Z.to_nat (clamp a)) (Z.to_nat (clamp b - clamp a)) s.

(** [s[a:b]] for the values found in an entry: a string bound is a
    [TypeError]. *)
Definition py_slice (s : string) (a b : pyval) : result string :=
  match a, b with
  | PInt x, PInt y => Ok (slice s x y)
  | _, _ => Raise TypeError
  end.

Definition newline : ascii := ascii_of_nat 10.

Fixpoint find_char (c : ascii) (s : string) (i start : Z) : Z :=
  match s with
  | EmptyString => -1
  | String a s' =>
      if (start <=? i) && Ascii.eqb a c then i
      else find_char c s' (i + 1) start
  end.

(** [s.find(c, start)]: the lowest index at or after [start] holding [c],
    or -1. *)
Definition py_find (c : ascii) (s : string) (start : Z) : Z :=
  find_char c s 0 (if start <? 0 then Z.max 0 (start + slen s) else start).

(** ** The parser object *)

(** [opentags] and [splitlist] are class attributes holding lists: every
    instance appends to the same two list objects.  [setag] and [datag]
    are class attributes holding [False]; assigning [self.setag] creates
    an instance attribute, so these two are per instance. *)
Record class_attrs : Type := mkClass {
  cls_opentags : list string;
  cls_splitlist : list entry
}.

Record parser : Type := mkParser {
  opentags : list string;
  splitlist : list entry;
  setag : bool;
  datag : bool;
  data : string
}.

Definition set_opentags (self : parser) (o : list string) : parser :=
  mkParser o (splitlist self) (setag self) (datag self) (data self).
Definition set_splitlist (self : parser) (l : list entry) : parser :=
  mkParser (opentags self) l (setag self) (datag self) (data self).
Definition set_setag (self : parser) (b : bool) : parser :=
  mkParser (opentags self) (splitlist self) b (datag self) (data self).
Definition set_datag (self : parser) (b : bool) : parser :=
  mkParser (opentags self) (splitlist self) (setag self) b (data self).
Definition set_data (self : parser) (d : string) : parser :=
  mkParser (opentags self) (splitlist self) (setag self) (datag self) d.

(** The class as the module defines it, before any parser has run. *)
Definition fresh_class : class_attrs := mkClass [] [].

(** [MarkdownSplitParser()]: the new instance reads the class attributes. *)
Definition MarkdownSplitParser (c : class_attrs) : parser :=
  mkParser (cls_opentags c) (cls_splitlist c) false false "".

(** The two shared lists as an instance leaves them. *)
Definition class_of (self : parser) : class_attrs :=
  mkClass (opentags self) (splitlist self).

(** ** Positions *)

(** What [getpos()] returns: (line number from 1, column from 0). *)
Definition getpos : Type := (Z * Z)%type.

Fixpoint skip_lines (n : nat) (d : string) (pos : Z) : Z :=
  match n with
  | O => pos
  | S n' => skip_lines n' d (py_find newline d pos + 1)
  end.

Definition get_offset (self : parser) (at_ : getpos) : Z :=
  let '(lin, offset) := at_ in
  skip_lines (Z.to_nat (lin - 1)) (data self) 0 + offset.

(** ** The handlers *)

Definition attrs_t : Type := list (string * string).

Definition handle_starttag (tag : string) (attrs : attrs_t) (at_ : getpos)
    (self : parser) : result parser :=
  if String.eqb tag "img" then Ok self
  else
    self <- (if len (opentags self) =? 0 then
               let pos := get_offset self at_ in
               self <- (if datag self || setag self then
                          sl <- append_at (splitlist self) (-1) (PInt pos) ;;
                          Ok (set_setag (set_datag (set_splitlist self sl) false) false)
                        else Ok self) ;;
               Ok (set_splitlist self (splitlist self ++ [[PStr "html"; PInt pos]]))
             else Ok self) ;;
    Ok (set_opentags self (opentags self ++ [tag])).

Definition handle_endtag (tag : string) (at_ : getpos) (self : parser)
    : result parser :=
  o <- py_pop (opentags self) ;;
  let self := set_opentags self o in
  if len (opentags self) =? 0 then
    let pos := get_offset self at_ in
    sl <- append_at (splitlist self) (-1) (PInt (pos + slen tag + 3)) ;;
    Ok (set_splitlist self sl)
  else Ok self.

Definition handle_startendtag (tag : string) (attrs : attrs_t) (at_ : getpos)
    (self : parser) : result parser :=
  if len (opentags self) =? 0 then
    let pos := get_offset self at_ in
    self <- (if datag self then
               sl <- append_at (splitlist self) (-1) (PInt pos) ;;
               Ok (set_datag (set_splitlist self sl) false)
             else Ok self) ;;
    let self := set_setag self true in
    Ok (set_splitlist self (splitlist self ++ [[PStr "html"; PInt pos]]))
  else Ok self.

Definition handle_data (text : string) (at_ : getpos) (self : parser)
    : result parser :=
  if (len (opentags self) =? 0) && negb (datag self) then
    let pos := get_offset self at_ in
    self <- (if setag self then
               sl <- append_at (splitlist self) (-1) (PInt pos) ;;
               Ok (set_setag (set_splitlist self sl) false)
             else Ok self) ;;
    let self := set_splitlist self (splitlist self ++ [[PStr "markdown"; PInt pos]]) in
    Ok (set_datag self true)
  else Ok self.

(** ** The tokenizer's reports *)

(** [HTMLParser.feed] scans the buffer and calls one handler per construct,
    in order of appearance; [getpos()] is then the position where the
    construct starts.  An event records the call and that position. *)
Inductive event : Type :=
| StartTag (tag : string) (attrs : attrs_t) (at_ : getpos)
| EndTag (tag : string) (at_ : getpos)
| StartEndTag (tag : string) (attrs : attrs_t) (at_ : getpos)
| Data (text : string) (at_ : getpos).

Definition handle (ev : event) (self : parser) : result parser :=
  match ev with
  | StartTag tag attrs p => handle_starttag tag attrs p self
  | EndTag tag p => handle_endtag tag p self
  | StartEndTag tag attrs p => handle_startendtag tag attrs p self
  | Data text p => handle_data text p self
  end.

Fixpoint run (evs : list event) (self : parser) : result parser :=
  match evs with
  | [] => Ok self
  | ev :: rest => self <- handle ev self ;; run rest self
  end.

(** ** feed *)

(** The loop that ends [feed]:
    [for i, li in enumerate(self.splitlist)], with the list shrinking under
    the iterator.  The iterator yields the object at position [i] of the
    list as it is then, and stops once [i] is past its end.  [li] is that
    object: it is read after the append to position [j], and it is the
    object appended to exactly when [j = i] (the entries are distinct list
    objects, each built by its own list display). *)
Fixpoint post_loop (fuel : nat) (d : string) (l : list entry) (i num_pop : Z)
    : result (list entry) :=
  match fuel with
  | O => Ok l
  | S fuel' =>
      if len l <=? i then Ok l
      else
        let j := i - num_pop in
        ej <- py_index l j ;;
        a <- py_index ej 1 ;;
        b <- py_index ej 2 ;;
        text <- py_slice d a b ;;
        l <- append_at l j (PStr text) ;;
        li <- py_index l i ;;
        x <- py_index li (-3) ;;
        y <- py_index li (-2) ;;
        if py_eq x y then
          l <- py_pop_at l i ;;
          post_loop fuel' d l (i + 1) (num_pop + 1)
        else post_loop fuel' d l (i + 1) num_pop
  end.

(** The end of input: the last entry, when still open, ends with the
    buffer. *)
Definition close_last (self : parser) : result parser :=
  last <- py_index (splitlist self) (-1) ;;
  if len last =? 2 then
    sl <- append_at (splitlist self) (-1) (PInt (slen (data self))) ;;
    Ok (set_splitlist self sl)
  else Ok self.

(** [feed] up to the loop: the entries with their boundaries and no text. *)
Definition scan (self : parser) (d : string) (evs : list event) : result parser :=
  let self := set_data self d in
  self <- run evs self ;;
  close_last self.

(** [feed(data)], given the events the base class reports for [data]. *)
Definition feed_events (self : parser) (d : string) (evs : list event)
    : result parser :=
  self <- scan self d evs ;;
  sl <- post_loop (List.length (splitlist self)) (data self) (splitlist self) 0 0 ;;
  Ok (set_splitlist self sl).

(** ** The base class's scanner on plain tags

    [HTMLParser] belongs to the Python 2 standard library, not to this
    module.  [html_events] gives the handler calls of [HTMLParser.feed] on
    buffers made of text and of the three bare tag forms [<name>],
    [</name>] and [<name/>]; on anything else (entity and character
    references, comments, declarations, processing instructions,
    attributes, white space inside a tag, an unfinished tag, the CDATA
    elements [script] and [style]) it answers [None], and nothing is
    claimed about such a buffer through it.  Every statement about all
    buffers is made on [feed_events], for whatever events are reported. *)

Definition lt_sign : ascii := ascii_of_nat 60.
Definition gt_sign : ascii := ascii_of_nat 62.
Definition amp_sign : ascii := ascii_of_nat 38.
Definition slash_sign : ascii := ascii_of_nat 47.

Definition is_alpha (c : ascii) : bool :=
  let n := nat_of_ascii c in
  ((65 <=? n) && (n <=? 90) || (97 <=? n) && (n <=? 122))%nat.

(** The characters of a tag name after the first: [-.a-zA-Z0-9:_]. *)
Definition is_namechar (c : ascii) : bool :=
  let n := nat_of_ascii c in
  (is_alpha c || (48 <=? n) && (n <=? 57)
   || (n =? 45) || (n =? 46) || (n =? 58) || (n =? 95))%nat.

Fixpoint all_chars (p : ascii -> bool) (s : string) : bool :=
  match s with
  | EmptyString => true
  | String c s' => p c && all_chars p s'
  end.

Definition is_name (s : string) : bool :=
  match s with
  | EmptyString => false
  | String c s' => is_alpha c && all_chars is_namechar s'
  end.

Definition lower_char (c : ascii) : ascii :=
  let n := nat_of_ascii c in
  if ((65 <=? n) && (n <=? 90))%nat then ascii_of_nat (n + 32) else c.

Fixpoint lower (s : string) : string :=
  match s with
  | EmptyString => EmptyString
  | String c s' => String (lower_char c) (lower s')
  end.

(** The text up to the next [<] or [&], and what follows it. *)
Fixpoint span_text (s : string) : string * string :=
  match s with
  | EmptyString => (EmptyString, EmptyString)
  | String c s' =>
      if Ascii.eqb c lt_sign || Ascii.eqb c amp_sign then (EmptyString, s)
      else let '(t, r) := span_text s' in (String c t, r)
  end.

(** The text up to the next [>], and what follows that [>]. *)
Fixpoint until_gt (s : string) : option (string * string) :=
  match s with
  | EmptyString => None
  | String c s' =>
      if Ascii.eqb c gt_sign then Some (EmptyString, s')
      else match until_gt s' with
           | Some (t, r) => Some (String c t, r)
           | None => None
           end
  end.

Fixpoint drop_last (s : string) : string :=
  match s with
  | EmptyString => EmptyString
  | String c EmptyString => EmptyString
  | String c s' => String c (drop_last s')
  end.

Fixpoint last_char (s : string) : option ascii :=
  match s with
  | EmptyString => None
  | String c EmptyString => Some c
  | String _ s' => last_char s'
  end.

Definition cdata_element (tag : string) : bool :=
  String.eqb tag "script" || String.eqb tag "style".

(** The handler call for the tag whose text between [<] and [>] is
    [body]. *)
Definition tag_event (body : string) (at_ : getpos) : option event :=
  match body with
  | EmptyString => None
  | String c name =>
      if Ascii.eqb c slash_sign then
        if is_name name then Some (EndTag (lower name) at_) else None
      else if is_name body then
        if cdata_element (lower body) then None
        else Some (StartTag (lower body) [] at_)
      else
        match last_char body with
        | Some l =>
            if Ascii.eqb l slash_sign && is_name (drop_last body)
            then Some (StartEndTag (lower (drop_last body)) [] at_)
            else None
        | None => None
        end
  end.

(** [updatepos] over a run of text: the line counter grows with each
    newline, the column restarts after the last one. *)
Fixpoint updatepos (text : string) (at_ : getpos) : getpos :=
  match text with
  | EmptyString => at_
  | String c text' =>
      let '(lineno, offset) := at_ in
      if Ascii.eqb c newline then updatepos text' (lineno + 1, 0)
      else updatepos text' (lineno, offset + 1)
  end.

(** The loop of [goahead], one construct per turn. *)
Fixpoint goahead (fuel : nat) (rawdata : string) (at_ : getpos)
    : option (list event) :=
  match fuel with
  | O => None
  | S fuel' =>
      match rawdata with
      | EmptyString => Some []
      | String c rest =>
          if Ascii.eqb c lt_sign then
            match until_gt rest with
            | Some (body, rest') =>
                match tag_event body at_ with
                | Some ev =>
                    option_map (cons ev)
                      (goahead fuel' rest' (fst at_, snd at_ + slen body + 2))
                | None => None
                end
            | None => None
            end
          else if Ascii.eqb c amp_sign then None
          else
            let '(text, rest') := span_text rawdata in
            option_map (cons (Data text at_))
              (goahead fuel' rest' (updatepos text at_))
      end
  end.

Definition html_events (d : string) : option (list event) :=
  goahead (S (String.length d)) d (1, 0).

(** [parser.feed(data)] on a buffer of plain tags. *)
Definition feed (self : parser) (d : string) : option (result parser) :=
  option_map (feed_events self d) (html_events d).

(** The span list a new parser leaves after [feed(source)]. *)
Definition split (c : class_attrs) (source : string)
    : option (result (list entry)) :=
  match feed (MarkdownSplitParser c) source with
  | Some (Ok self) => Some (Ok (splitlist self))
  | Some (Raise e) => Some (Raise e)
  | None => None
  end.

(** ** extended_markdown2latex *)

Section Dispatch.

(** The two converters are other modules' functions; each receives the
    object found at position 3 of an entry and may raise. *)
Variables markdown2latex html2latex : pyval -> result string.

(** [for substring in parser.splitlist: ...], with [outtext] carried
    along. *)
Fixpoint convert_loop (outtext : string) (l : list entry) : result string :=
  match l with
  | [] => Ok outtext
  | substring :: rest =>
      kind <- py_index substring 0 ;;
      if py_eq kind (PStr "markdown") then
        text <- py_index substring 3 ;;
        out <- markdown2latex text ;;
        convert_loop (outtext ++ out)%string rest
      else if py_eq kind (PStr "html") then
        text <- py_index substring 3 ;;
        out <- html2latex text ;;
        convert_loop (outtext ++ out)%string rest
      else convert_loop outtext rest
  end.

Definition extended_markdown2latex_events (c : class_attrs) (source : string)
    (evs : list event) : result string :=
  parser <- feed_events (MarkdownSplitParser c) source evs ;;
  convert_loop "" (splitlist parser).

Definition extended_markdown2latex (c : class_attrs) (source : string)
    : option (result string) :=
  option_map (extended_markdown2latex_events c source) (html_events source).

End Dispatch.

(** ** Vocabulary of the statements *)

(** A finished span as the data model has it: kind, start, end, text. *)
Definition span (kind : string) (s t : Z) (text : string) : entry :=
  [PStr kind; PInt s; PInt t; PStr text].

(** The absolute offset [get_offset] computes in buffer [d]. *)
Definition offset_of (d : string) (at_ : getpos) : Z :=
  get_offset (set_data (MarkdownSplitParser fresh_class) d) at_.

Definition ev_at (ev : event) : getpos :=
  match ev with
  | StartTag _ _ p | EndTag _ p | StartEndTag _ _ p | Data _ p => p
  end.

(** The least number of characters the construct behind an event takes:
    an end tag is at least [</name>], anything else at least one
    character. *)
Definition ev_extent (ev : event) : Z :=
  match ev with
  | EndTag tag _ => slen tag + 3
  | _ => 1
  end.

(** What a scan of [d] guarantees of its reports: each construct starts
    at or after the end of the one before it ([lo]), and the last one ends
    within the buffer. *)
Fixpoint advancing (d : string) (lo : Z) (evs : list event) : bool :=
  match evs with
  | [] => lo <=? slen d
  | ev :: rest =>
      (lo <=? offset_of d (ev_at ev))
      && advancing d (offset_of d (ev_at ev) + ev_extent ev) rest
  end.

Definition is_data (ev : event) : bool :=
  match ev with
  | Data _ _ => true
  | _ => false
  end.

(** An entry before the final loop: its start equals its end. *)
Definition empty_span (e : entry) : bool :=
  match e with
  | [_; a; b] => py_eq a b
  | _ => false
  end.

(** An entry with its boundaries, given its text. *)
Definition with_text (d : string) (e : entry) : entry :=
  match e with
  | [_; PInt s; PInt t] => e ++ [PStr (slice d s t)]
  | _ => e
  end.

(** The two policies the specification allows on an unmatched closing
    tag: the error it names, or a split that completes. *)
Definition sanctioned (r : result parser) : Prop :=
  r = Raise (Exc "MalformedMarkupError") \/ exists self, r = Ok self.

Section Conversions.

Variables markdown2latex html2latex : pyval -> result string.

(** What one span contributes to the output, as the specification
    words the dispatch: the markdown converter's result for a markdown
    span, the html converter's for an html span, nothing for any other
    kind. *)
Inductive contributes : entry -> string -> Prop :=
| contributes_markdown s t text rest out :
    markdown2latex text = Ok out ->
    contributes (PStr "markdown" :: s :: t :: text :: rest) out
| contributes_html s t text rest out :
    html2latex text = Ok out ->
    contributes (PStr "html" :: s :: t :: text :: rest) out
| contributes_other kind rest :
    py_eq kind (PStr "markdown") = false ->
    py_eq kind (PStr "html") = false ->
    contributes (kind :: rest) "".

End Conversions.

(** A stand-in converter for worked examples: it wraps the text it is
    given in a label, and refuses anything but a string. *)
Definition labelling (label : string) (v : pyval) : result string :=
  match v with
  | PStr text => Ok (label ++ "(" ++ text ++ ")")%string
  | PInt _ => Raise TypeError
  end.

(** ** The state of a scan *)

(** An entry with both boundaries, the end after the start. *)
Definition closed (e : entry) : Prop :=
  exists k s t, e = [PStr k; PInt s; PInt t] /\ s < t.

(** An entry that still waits for its end, started before offset [lo]. *)
Definition opened (lo : Z) (e : entry) : Prop :=
  exists k s, e = [PStr k; PInt s] /\ s < lo.

Definition shaped (lo : Z) (e : entry) : Prop := closed e \/ opened lo e.

(** What holds of a parser on fresh class attributes after it has handled
    the constructs of buffer [d] that end at or before offset [lo]. *)
Record scanning (d : string) (lo : Z) (self : parser) : Prop := {
  sc_data : data self = d;
  sc_entries : Forall (shaped lo) (splitlist self);
  sc_last :
    opentags self <> [] \/ datag self = true \/ setag self = true ->
    exists sl e, splitlist self = sl ++ [e] /\ opened lo e;
  sc_flags : opentags self <> [] -> datag self = false /\ setag self = false
}.

(** ** Reports that tile the buffer *)

(** Where a scan stands between two reports. *)
Inductive mode : Type :=
| AtStart                  (* nothing reported yet *)
| InText                   (* a markdown run is open *)
| AfterSelfClosing         (* the entry of a self-closing tag waits for its end *)
| InElement (n : nat)      (* inside a top-level element, [n + 1] tags open *)
| AfterElement (c : Z).    (* a top-level element was closed, its end set to [c] *)



(** Entries with both boundaries that follow one another edge to edge
    from offset [from] to offset [to], none empty. *)
Fixpoint chain (from : Z) (l : list entry) (to : Z) : Prop :=
  match l with
  | [] => from = to
  | e :: rest =>
      exists k t, e = [PStr k; PInt from; PInt t] /\ from < t /\ chain t rest to
  end.



(** The parser a scan in mode [m] has reached, all constructs so far
    ending at or before [lo]. *)
Inductive tiling (d : string) : mode -> Z -> parser -> Prop :=
| tiling_start lo :
    tiling d AtStart lo (mkParser [] [] false false d)
| tiling_text lo done k s :
    chain 0 done s -> s < lo ->
    tiling d InText lo (mkParser [] (done ++ [[PStr k; PInt s]]) false true d)
| tiling_self_closing lo done k s :
    chain 0 done s -> s < lo ->
    tiling d AfterSelfClosing lo
      (mkParser [] (done ++ [[PStr k; PInt s]]) true false d)
| tiling_element lo done k s o x :
    chain 0 done s -> s < lo ->
    tiling d (InElement (List.length o)) lo
      (mkParser (o ++ [x]) (done ++ [[PStr k; PInt s]]) false false d)
| tiling_after lo done e c :
    chain 0 (done ++ [e]) c -> c <= lo ->
    tiling d (AfterElement c) lo (mkParser [] (done ++ [e]) false false d).

(** Text with no markup character at all: neither [<] nor [&]. *)
Definition plain_char (c : ascii) : bool :=
  negb (Ascii.eqb c lt_sign || Ascii.eqb c amp_sign).

(** ** The pandoc wrappers *)

Module Pandoc.
Section Wrappers.

(** [pandoc(source, fmt, to, extra_args=None)] belongs to
    IPython.nbconvert.utils.pandoc; it runs the external converter and may
    raise. *)
Variable pandoc :
  pyval -> string -> string -> option (list string) -> result string.

Definition markdown2latex (source : pyval) : result string :=
  pandoc source "markdown" "latex" None.

Definition markdown2html (source : pyval) : result string :=
  pandoc source "markdown" "html" (Some ["--mathjax"]).

Definition markdown2rst (source : pyval) : result string :=
  pandoc source "markdown" "rst" None.

End Wrappers.
End Pandoc.

(** ** Vocabulary of the further statements *)

Definition not_newline (c : ascii) : bool := negb (Ascii.eqb c newline).


Definition is_end (ev : event) : bool :=
  match ev with
  | EndTag _ _ => true
  | _ => false
  end.

(** A start tag that is pushed on [opentags]: any but img. *)
Definition pushes (ev : event) : bool :=
  match ev with
  | StartTag tag _ _ => negb (String.eqb tag "img")
  | _ => false
  end.

Definition count (p : event -> bool) (evs : list event) : Z :=
  len (filter p evs).

Section Failures.

Variables markdown2latex html2latex : pyval -> result string.

(** An entry at which the dispatch loop stops, and the exception it stops
    with: the converter's own, or IndexError when the entry is empty or
    a markdown or html entry has no fourth field. *)
Inductive fails : entry -> pyexc -> Prop :=
| fails_markdown s t text rest x :
    markdown2latex text = Raise x ->
    fails (PStr "markdown" :: s :: t :: text :: rest) x
| fails_html s t text rest x :
    html2latex text = Raise x ->
    fails (PStr "html" :: s :: t :: text :: rest) x
| fails_no_kind :
    fails [] IndexError
| fails_no_text kind rest :
    py_eq kind (PStr "markdown") || py_eq kind (PStr "html") = true ->
    (List.length rest < 3)%nat ->
    fails (kind :: rest) IndexError.

End Failures.

(** The two flags of a parser: neither is set while a tag is open, and
    they are not set together. *)
Definition flags_ok (self : parser) : Prop :=
  (opentags self <> [] -> setag self = false /\ datag self = false)
  /\ setag self && datag self = false.

(** The number of newlines in a text. *)
Fixpoint newlines (s : string) : nat :=
  match s with
  | EmptyString => O
  | String c s' => if Ascii.eqb c newline then S (newlines s') else newlines s'
  end.

(** [grown old new]: every entry of [old] is in [new] at the same position
    with the fields it had, possibly followed by more; [new] may have
    further entries at its end. *)
Inductive grown : list entry -> list entry -> Prop :=
| grown_nil added : grown [] added
| grown_cons e more old new :
    grown old new -> grown (e :: old) ((e ++ more) :: new).



(** The spans a call leaves, or its exception. *)
Definition spans_of (r : result parser) : result (list entry) :=
  match r with
  | Ok self => Ok (splitlist self)
  | Raise x => Raise x
  end.

(** Two reports that differ at most in the tag name, an img start tag
    being told from the other start tags and an end tag keeping the
    length of its name. *)
Definition similar (e1 e2 : event) : Prop :=
  match e1, e2 with
  | StartTag t1 _ p1, StartTag t2 _ p2 =>
      String.eqb t1 "img" = String.eqb t2 "img" /\ p1 = p2
  | EndTag t1 p1, EndTag t2 p2 => slen t1 = slen t2 /\ p1 = p2
  | StartEndTag _ _ p1, StartEndTag _ _ p2 => p1 = p2
  | Data _ p1, Data _ p2 => p1 = p2
  | _, _ => False
  end.

(** An entry with its kind and its two boundaries, and nothing else. *)
Definition triple (e : entry) : Prop :=
  exists k s t, e = [PStr k; PInt s; PInt t].

(** The entries with their texts, except the last one, left as it is. *)
Definition text_all_but_last (d : string) (l : list entry) : list entry :=
  match l with
  | [] => []
  | _ :: _ => map (with_text d) (removelast l) ++ [last l []]
  end.

(** Two parsers that differ at most in the names on [opentags]. *)
Definition same_but_names (s1 s2 : parser) : Prop :=
  splitlist s1 = splitlist s2 /\ setag s1 = setag s2 /\ datag s1 = datag s2
  /\ data s1 = data s2
  /\ List.length (opentags s1) = List.length (opentags s2).

Definition same_outcome (r1 r2 : result parser) : Prop :=
  match r1, r2 with
  | Ok a, Ok b => same_but_names a b
  | Raise x, Raise y => x = y
  | _, _ => False
  end.

(** Entries in source order during a scan: each starts at or after the
    end of the closed entry before it (or after the start of an entry
    still without its end), and everything lies at or before [lo]. *)
Fixpoint span_order (from : Z) (l : list entry) (lo : Z) : Prop :=
  match l with
  | [] => from <= lo
  | e :: rest =>
      (exists k s t,
          e = [PStr k; PInt s; PInt t] /\ from <= s < t /\ span_order t rest lo)
      \/ (exists k s,
             e = [PStr k; PInt s] /\ from <= s /\ span_order (s + 1) rest lo)
  end.

(** Spans in source order inside buffer [d]: none is empty, none starts
    before the one before it ends, the last ends within the buffer, and
    each carries its range of the buffer as text. *)
Fixpoint in_order (d : string) (from : Z) (l : list entry) : Prop :=
  match l with
  | [] => from <= slen d
  | e :: rest =>
      exists k s t,
        e = span k s t (slice d s t) /\ from <= s < t /\ in_order d t rest
  end.


(** * Properties *)

(** ** The list operations *)

Lemma len_app {A : Type} (l r : list A) : len (l ++ r) = len l + len r.
Proof. unfold len. rewrite length_app. lia. Qed.

Lemma len_nonneg {A : Type} (l : list A) : 0 <= len l.
Proof. unfold len. lia. Qed.

Lemma norm_index_nil {A : Type} (i : Z) : norm_index (@nil A) i = None.
Proof.
  unfold norm_index, len. simpl.
  destruct (i <? 0) eqn:Hi.
  - rewrite Z.add_0_r, Hi. reflexivity.
  - replace (0 <=? i) with true by (symmetry; apply Z.leb_le; apply Z.ltb_ge in Hi; lia).
    now rewrite orb_true_r.
Qed.

Lemma norm_index_last {A : Type} (l : list A) (x : A) :
  norm_index (l ++ [x]) (-1) = Some (List.length l).
Proof.
  unfold norm_index. rewrite len_app. change (len [x]) with 1.
  change (-1 <? 0) with true. cbv iota.
  pose proof (len_nonneg l) as Hl.
  replace (-1 + (len l + 1)) with (len l) by lia.
  replace (len l <? 0) with false by (symmetry; apply Z.ltb_ge; lia).
  replace (len l + 1 <=? len l) with false by (symmetry; apply Z.leb_gt; lia).
  simpl. unfold len. now rewrite Nat2Z.id.
Qed.

Lemma norm_index_nat {A : Type} (l : list A) (k : nat) :
  (k < List.length l)%nat -> norm_index l (Z.of_nat k) = Some k.
Proof.
  intros Hk. unfold norm_index, len.
  destruct (Z.ltb_spec (Z.of_nat k) 0) as [H|H]; [lia|].
  destruct (Z.ltb_spec (Z.of_nat k) 0) as [H1|H1]; [lia|].
  destruct (Z.leb_spec (Z.of_nat (List.length l)) (Z.of_nat k)) as [H2|H2]; [lia|].
  simpl. now rewrite Nat2Z.id.
Qed.

Lemma update_nth_app {A : Type} (f : A -> A) (l r : list A) (x : A) :
  update_nth (List.length l) f (l ++ x :: r) = l ++ f x :: r.
Proof. induction l as [|y l IH]; simpl; [reflexivity | now rewrite IH]. Qed.

Lemma update_nth_length {A : Type} (f : A -> A) (k : nat) (l : list A) :
  List.length (update_nth k f l) = List.length l.
Proof.
  revert k. induction l as [|x l IH]; intros [|k]; simpl; auto.
Qed.

Lemma remove_nth_length {A : Type} (k : nat) (l : list A) :
  (k < List.length l)%nat ->
  List.length (remove_nth k l) = pred (List.length l).
Proof.
  revert k. induction l as [|x l IH]; intros [|k] Hk; simpl in *; try lia.
  rewrite IH by lia. destruct l; simpl in *; lia.
Qed.

Lemma nth_error_middle {A : Type} (l r : list A) (x : A) :
  nth_error (l ++ x :: r) (List.length l) = Some x.
Proof. induction l; simpl; auto. Qed.

Lemma py_index_nil {A : Type} (i : Z) : py_index (@nil A) i = Raise IndexError.
Proof. unfold py_index. now rewrite norm_index_nil. Qed.

Lemma py_index_last {A : Type} (l : list A) (x : A) :
  py_index (l ++ [x]) (-1) = Ok x.
Proof.
  unfold py_index. rewrite norm_index_last, nth_error_middle. reflexivity.
Qed.

Lemma py_index_middle {A : Type} (l r : list A) (x : A) :
  py_index (l ++ x :: r) (len l) = Ok x.
Proof.
  unfold py_index, len. rewrite norm_index_nat.
  - now rewrite nth_error_middle.
  - rewrite length_app. simpl. lia.
Qed.

Lemma append_at_nil (i : Z) (v : pyval) : append_at [] i v = Raise IndexError.
Proof. unfold append_at. now rewrite norm_index_nil. Qed.

Lemma append_at_last (l : list entry) (e : entry) (v : pyval) :
  append_at (l ++ [e]) (-1) v = Ok (l ++ [e ++ [v]]).
Proof.
  unfold append_at. rewrite norm_index_last, update_nth_app. reflexivity.
Qed.

Lemma append_at_middle (l r : list entry) (e : entry) (v : pyval) :
  append_at (l ++ e :: r) (len l) v = Ok (l ++ (e ++ [v]) :: r).
Proof.
  unfold append_at, len. rewrite norm_index_nat.
  - now rewrite update_nth_app.
  - rewrite length_app. simpl. lia.
Qed.

Lemma append_at_length (l l' : list entry) (i : Z) (v : pyval) :
  append_at l i v = Ok l' -> List.length l' = List.length l.
Proof.
  unfold append_at. destruct (norm_index l i); [|discriminate].
  intros H. injection H as <-. apply update_nth_length.
Qed.

Lemma norm_index_bound {A : Type} (l : list A) (i : Z) (k : nat) :
  norm_index l i = Some k -> (k < List.length l)%nat.
Proof.
  unfold norm_index, len.
  destruct ((_ <? 0) || _) eqn:H; [discriminate|].
  apply orb_false_iff in H as [H1 H2].
  apply Z.ltb_ge in H1. apply Z.leb_gt in H2.
  intros E. injection E as <-. lia.
Qed.

Lemma py_pop_at_length {A : Type} (l l' : list A) (i : Z) :
  py_pop_at l i = Ok l' -> List.length l' = pred (List.length l).
Proof.
  unfold py_pop_at. destruct (norm_index l i) eqn:E; [|discriminate].
  intros H. injection H as <-. apply remove_nth_length.
  eapply norm_index_bound; eauto.
Qed.

Lemma py_pop_nil {A : Type} : py_pop (@nil A) = Raise IndexError.
Proof. unfold py_pop, py_pop_at. now rewrite norm_index_nil. Qed.

Lemma remove_nth_last {A : Type} (l : list A) (x : A) :
  remove_nth (List.length l) (l ++ [x]) = l.
Proof. induction l as [|y l IH]; simpl; [reflexivity | now rewrite IH]. Qed.

Lemma py_pop_snoc {A : Type} (l : list A) (x : A) : py_pop (l ++ [x]) = Ok l.
Proof.
  unfold py_pop, py_pop_at. now rewrite norm_index_last, remove_nth_last.
Qed.

Lemma len_zero_iff {A : Type} (l : list A) : (len l =? 0) = true <-> l = [].
Proof.
  unfold len. rewrite Z.eqb_eq. destruct l; simpl; split; intros H;
    try reflexivity; try discriminate; lia.
Qed.

Lemma len_zero_snoc {A : Type} (l : list A) (x : A) : (len (l ++ [x]) =? 0) = false.
Proof.
  apply Z.eqb_neq. rewrite len_app. pose proof (len_nonneg l).
  change (len [x]) with 1. lia.
Qed.

(** ** The events in sequence *)

Lemma run_app (a b : list event) (self : parser) :
  run (a ++ b) self = (self' <- run a self ;; run b self').
Proof.
  revert self. induction a as [|ev a IH]; intros self; simpl; [reflexivity|].
  destruct (handle ev self); simpl; auto.
Qed.

(** The iterator of the final loop is exhausted after as many turns as the
    list has entries: more fuel changes nothing. *)
Lemma post_loop_fuel (n m : nat) (d : string) (l : list entry) (i num_pop : Z) :
  len l <= i + Z.of_nat n ->
  post_loop (n + m) d l i num_pop = post_loop n d l i num_pop.
Proof.
  revert l i num_pop. induction n as [|n IH]; intros l i num_pop Hn.
  - simpl. destruct m; simpl; [reflexivity|].
    replace (len l <=? i) with true by (symmetry; apply Z.leb_le; lia).
    reflexivity.
  - simpl. destruct (len l <=? i); [reflexivity|].
    destruct (py_index l (i - num_pop)) as [ej|]; simpl; [|reflexivity].
    destruct (py_index ej 1) as [a|]; simpl; [|reflexivity].
    destruct (py_index ej 2) as [b|]; simpl; [|reflexivity].
    destruct (py_slice d a b) as [t|]; simpl; [|reflexivity].
    destruct (append_at l (i - num_pop) (PStr t)) as [l1|] eqn:E1; simpl; [|reflexivity].
    apply append_at_length in E1.
    destruct (py_index l1 i) as [li|]; simpl; [|reflexivity].
    destruct (py_index li (-3)) as [x|]; simpl; [|reflexivity].
    destruct (py_index li (-2)) as [y|]; simpl; [|reflexivity].
    destruct (py_eq x y).
    + destruct (py_pop_at l1 i) as [l2|] eqn:E2; simpl; [|reflexivity].
      apply py_pop_at_length in E2. apply IH. unfold len in *. lia.
    + apply IH. unfold len in *. lia.
Qed.

(** The fuel [feed] gives the loop, one unit per entry, is enough. *)
Lemma feed_loop_fuel (m : nat) (d : string) (l : list entry) :
  post_loop (List.length l + m) d l 0 0 = post_loop (List.length l) d l 0 0.
Proof. apply post_loop_fuel. unfold len. lia. Qed.

(** ** The worked examples *)

(** C5.  With the class attributes as the module defines them, splitting
    "before<div>inside</div>after" gives three spans in order: markdown
    "before" on [0,6), html "<div>inside</div>" on [6,23), markdown
    "after" on [23,28). *)
Theorem split_mixed_example :
  split fresh_class "before<div>inside</div>after"
  = Some (Ok [span "markdown" 0 6 "before";
              span "html" 6 23 "<div>inside</div>";
              span "markdown" 23 28 "after"]).
Proof. vm_compute. reflexivity. Qed.




(** ** img start tags *)

Lemma handle_img_starttag (attrs : attrs_t) (p : getpos) (self : parser) :
  handle_starttag "img" attrs p self = Ok self.
Proof. reflexivity. Qed.

(** C9.  An img start-tag event leaves the parser as it was: no entry is
    added, the open-tag stack and both flags are unchanged, so the scan
    goes on as if the event had not been reported and an open markdown
    run continues across it.  A self-closing tag is handled without
    regard to its name: an img written [<img/>] at depth 0 opens an html
    entry as any other self-closing tag does. *)
Theorem img_starttag_ignored :
  (forall attrs p self, handle_starttag "img" attrs p self = Ok self)
  /\ (forall attrs p before after self d,
        feed_events self d (before ++ StartTag "img" attrs p :: after)
        = feed_events self d (before ++ after))
  /\ (forall tag attrs p self,
        handle_startendtag "img" attrs p self
        = handle_startendtag tag attrs p self)
  /\ (forall attrs p sl se d,
        handle_startendtag "img" attrs p (mkParser [] sl se false d)
        = Ok (mkParser [] (sl ++ [[PStr "html"; PInt (offset_of d p)]])
                true false d))
  /\ split fresh_class "a<img>b<img/>c"
     = Some (Ok [span "markdown" 0 7 "a<img>b"; span "html" 7 13 "<img/>";
                 span "markdown" 13 14 "c"]).
Proof.
  split; [intros; apply handle_img_starttag|].
  split.
  { intros. unfold feed_events, scan. rewrite !run_app.
    destruct (run before (set_data self d)) as [s1|]; [|reflexivity].
    cbn [bind run handle]. rewrite handle_img_starttag. reflexivity. }
  split; [reflexivity|].
  split; [reflexivity|].
  vm_compute. reflexivity.
Qed.

(** ** Strings *)

Lemma append_assoc (a b c : string) :
  ((a ++ b) ++ c)%string = (a ++ (b ++ c))%string.
Proof. induction a as [|x a IH]; simpl; [reflexivity | now rewrite IH]. Qed.

Lemma append_empty_r (a : string) : (a ++ "")%string = a.
Proof. induction a as [|x a IH]; simpl; [reflexivity | now rewrite IH]. Qed.

Lemma substring_whole (s : string) : substring 0 (String.length s) s = s.
Proof. induction s as [|c s IH]; simpl; [reflexivity | now rewrite IH]. Qed.

Lemma slice_whole (s : string) : slice s 0 (slen s) = s.
Proof.
  unfold slice, slen.
  change (0 <? 0) with false. cbv iota.
  destruct (Z.ltb_spec (Z.of_nat (String.length s)) 0) as [H|H]; [lia|].
  rewrite Z.min_id, Z.min_l by lia.
  rewrite Z.sub_0_r, Nat2Z.id. apply substring_whole.
Qed.

Lemma slen_empty (s : string) : slen s = 0 -> s = "".
Proof. destruct s; simpl; [reflexivity|]. unfold slen. simpl. lia. Qed.

(** ** Subscripts of an entry *)

Lemma py_index_0 {A : Type} (x : A) (l : list A) : py_index (x :: l) 0 = Ok x.
Proof.
  unfold py_index. change 0 with (Z.of_nat 0).
  rewrite norm_index_nat by (simpl; lia). reflexivity.
Qed.

Lemma py_index_3 {A : Type} (a b c x : A) (l : list A) :
  py_index (a :: b :: c :: x :: l) 3 = Ok x.
Proof.
  unfold py_index. change 3 with (Z.of_nat 3).
  rewrite norm_index_nat by (simpl; lia). reflexivity.
Qed.

(** ** Two self-closing tags in a row *)

(** [handle_startendtag] closes an open markdown run but not an entry
    left pending by an earlier self-closing tag (which [handle_starttag]
    and [handle_data] do close): of two adjacent self-closing tags the
    first keeps the two fields [['html', 0]], and the final loop of [feed]
    raises IndexError on its missing end.  A self-closing tag followed by
    an element is split as expected. *)
Lemma split_two_self_closing_raises :
  html_events "<br/><br/>"
  = Some [StartEndTag "br" [] (1, 0); StartEndTag "br" [] (1, 5)]
  /\ scan (MarkdownSplitParser fresh_class) "<br/><br/>"
       [StartEndTag "br" [] (1, 0); StartEndTag "br" [] (1, 5)]
     = Ok (mkParser [] [[PStr "html"; PInt 0]; [PStr "html"; PInt 5; PInt 10]]
             true false "<br/><br/>")
  /\ split fresh_class "<br/><br/>" = Some (Raise IndexError)
  /\ split fresh_class "<br/><b></b>"
     = Some (Ok [span "html" 0 5 "<br/>"; span "html" 5 12 "<b></b>"]).
Proof. repeat split; vm_compute; reflexivity. Qed.

(** ** Two parsers, one pair of lists *)

(** C2 fails on the second invocation.  The parser built by a second call
    appends to the very lists the first call filled: splitting "a" again
    returns the first call's span (with a second text appended to it)
    followed by the new one, so that the converted output doubles; and
    splitting "b" after "a" returns the span of "a" as well. *)
Theorem second_invocation_sees_first :
  exists p1,
    feed (MarkdownSplitParser fresh_class) "a" = Some (Ok p1)
    /\ splitlist p1 = [span "markdown" 0 1 "a"]
    /\ split (class_of p1) "a"
       = Some (Ok [[PStr "markdown"; PInt 0; PInt 1; PStr "a"; PStr "a"];
                   span "markdown" 0 1 "a"])
    /\ split fresh_class "b" = Some (Ok [span "markdown" 0 1 "b"])
    /\ split (class_of p1) "b"
       = Some (Ok [[PStr "markdown"; PInt 0; PInt 1; PStr "a"; PStr "b"];
                   span "markdown" 0 1 "b"])
    /\ extended_markdown2latex (labelling "M") (labelling "H") fresh_class "a"
       = Some (Ok "M(a)")
    /\ extended_markdown2latex (labelling "M") (labelling "H") (class_of p1) "a"
       = Some (Ok "M(a)M(a)").
Proof.
  eexists. split; [vm_compute; reflexivity|].
  repeat split; vm_compute; reflexivity.
Qed.

(** ** An end tag with no tag open *)

Lemma handle_endtag_unmatched (tag : string) (p : getpos) (self : parser) :
  opentags self = [] -> handle_endtag tag p self = Raise IndexError.
Proof.
  intros H. unfold handle_endtag. rewrite H, py_pop_nil. reflexivity.
Qed.

(** C4 as stated fails on "</div>": the result is IndexError, neither
    the error the specification names nor a completed split. *)
Lemma unmatched_endtag_not_sanctioned :
  exists r,
    feed (MarkdownSplitParser fresh_class) "</div>" = Some r /\ ~ sanctioned r.
Proof.
  exists (Raise IndexError). split; [vm_compute; reflexivity|].
  intros [H | [self H]]; discriminate H.
Qed.

(** C4, amended.  Whatever the class lists hold and whatever was scanned
    before, an end tag reported while no tag is open makes [feed] raise
    IndexError (from [opentags.pop()] on the empty list): the split does
    not complete and the depth is not clamped. *)
Theorem unmatched_endtag_raises (c : class_attrs) (d : string)
    (before after : list event) (tag : string) (p : getpos) (self : parser) :
  run before (set_data (MarkdownSplitParser c) d) = Ok self ->
  opentags self = [] ->
  feed_events (MarkdownSplitParser c) d (before ++ EndTag tag p :: after)
  = Raise IndexError.
Proof.
  intros Hrun Hdepth. unfold feed_events, scan.
  rewrite run_app, Hrun. cbn [bind run handle].
  rewrite (handle_endtag_unmatched tag p self Hdepth). reflexivity.
Qed.

Lemma unmatched_endtag_raises_witness :
  feed_events (MarkdownSplitParser fresh_class) "a</div>b"
    ([Data "a" (1, 0)] ++ EndTag "div" (1, 1) :: [Data "b" (1, 7)])
  = Raise IndexError.
Proof.
  apply (unmatched_endtag_raises fresh_class "a</div>b" [Data "a" (1, 0)]
           [Data "b" (1, 7)] "div" (1, 1)
           (mkParser [] [[PStr "markdown"; PInt 0]] false true "a</div>b")).
  - reflexivity.
  - reflexivity.
Defined.

(** ** Text without tags *)

Lemma run_data_idle (evs : list event) (self : parser) :
  datag self = true -> forallb is_data evs = true -> run evs self = Ok self.
Proof.
  intros Hd. induction evs as [|ev evs IH]; simpl; [reflexivity|].
  intros H. apply andb_prop in H as [Hev Hall].
  destruct ev; try discriminate Hev. simpl.
  unfold handle_data. rewrite Hd, andb_false_r. simpl. auto.
Qed.


(** When only data is reported, the first piece at the start of the
    buffer, the one markdown run covers the buffer. *)
Lemma feed_only_data (d text : string) (rest : list event) :
  d <> "" ->
  forallb is_data rest = true ->
  exists self,
    feed_events (MarkdownSplitParser fresh_class) d (Data text (1, 0) :: rest)
    = Ok self
    /\ splitlist self = [span "markdown" 0 (slen d) d].
Proof.
  intros Hne Hrest.
  exists (mkParser [] [span "markdown" 0 (slen d) d] false true d).
  split; [|reflexivity].
  unfold feed_events, scan. cbn [run handle].
  change (handle_data text (1, 0) (set_data (MarkdownSplitParser fresh_class) d))
    with (Ok (mkParser [] [[PStr "markdown"; PInt 0]] false true d)).
  cbn [bind]. rewrite run_data_idle by (auto; reflexivity).
  cbn [bind]. unfold close_last. cbn [splitlist data].
  change (py_index [[PStr "markdown"; PInt 0]] (-1))
    with (Ok [PStr "markdown"; PInt 0]).
  cbn [bind]. change (len [PStr "markdown"; PInt 0] =? 2) with true. cbv iota.
  change (append_at [[PStr "markdown"; PInt 0]] (-1) (PInt (slen d)))
    with (Ok [[PStr "markdown"; PInt 0; PInt (slen d)]]).
  cbn [bind set_splitlist splitlist data List.length post_loop].
  change (len [[PStr "markdown"; PInt 0; PInt (slen d)]] <=? 0) with false.
  cbv iota.
  change (py_index [[PStr "markdown"; PInt 0; PInt (slen d)]] (0 - 0))
    with (Ok [PStr "markdown"; PInt 0; PInt (slen d)]).
  cbn [bind].
  change (py_index [PStr "markdown"; PInt 0; PInt (slen d)] 1) with (Ok (PInt 0)).
  change (py_index [PStr "markdown"; PInt 0; PInt (slen d)] 2)
    with (Ok (PInt (slen d))).
  cbn [bind py_slice]. rewrite slice_whole.
  change (append_at [[PStr "markdown"; PInt 0; PInt (slen d)]] (0 - 0) (PStr d))
    with (Ok [span "markdown" 0 (slen d) d]).
  cbn [bind].
  change (py_index [span "markdown" 0 (slen d) d] 0)
    with (Ok (span "markdown" 0 (slen d) d)).
  cbn [bind].
  change (py_index (span "markdown" 0 (slen d) d) (-3)) with (Ok (PInt 0)).
  change (py_index (span "markdown" 0 (slen d) d) (-2)) with (Ok (PInt (slen d))).
  cbn [bind py_eq].
  destruct (Z.eqb_spec 0 (slen d)) as [E|E].
  - exfalso. apply Hne. apply slen_empty. auto.
  - reflexivity.
Qed.



Lemma span_text_plain (s : string) :
  all_chars plain_char s = true -> span_text s = (s, "").
Proof.
  induction s as [|c s IH]; simpl; [reflexivity|].
  intros H. apply andb_prop in H as [Hc Hs]. unfold plain_char in Hc.
  apply negb_true_iff in Hc. rewrite Hc, (IH Hs). reflexivity.
Qed.

(** On a non-empty buffer without [<] and [&] the scanner reports the
    whole buffer as one piece of data. *)
Lemma html_events_plain (d : string) :
  d <> "" -> all_chars plain_char d = true ->
  html_events d = Some [Data d (1, 0)].
Proof.
  intros Hne Hplain. unfold html_events.
  destruct d as [|c d]; [now contradiction Hne|].
  cbn [String.length goahead].
  pose proof Hplain as Hc. cbn [all_chars] in Hc.
  apply andb_prop in Hc as [Hc _]. unfold plain_char in Hc.
  apply negb_true_iff, orb_false_iff in Hc as [Hlt Hamp].
  rewrite Hlt, Hamp, (span_text_plain _ Hplain). reflexivity.
Qed.

(** The same at the level of strings: a non-empty source without [<]
    and [&] is split into one markdown span that covers it. *)
Corollary split_plain_text (d : string) :
  d <> "" -> all_chars plain_char d = true ->
  split fresh_class d = Some (Ok [span "markdown" 0 (slen d) d]).
Proof.
  intros Hne Hplain. unfold split, feed.
  rewrite (html_events_plain d Hne Hplain). cbn [option_map].
  destruct (feed_only_data d d [] Hne eq_refl) as (self & -> & ->).
  reflexivity.
Qed.

(** Offsets across lines: the tokenizer reports (line, column), and
    [get_offset] finds the absolute offsets 3 and 14 behind (2, 1) and
    (4, 5). *)
Example split_multiline_example :
  let nl := String newline "" in
  html_events ("a" ++ nl ++ "b<P>c" ++ nl ++ nl ++ "d</P>e")%string
  = Some [Data ("a" ++ nl ++ "b")%string (1, 0); StartTag "p" [] (2, 1);
          Data ("c" ++ nl ++ nl ++ "d")%string (2, 4); EndTag "p" (4, 1);
          Data "e" (4, 5)]
  /\ split fresh_class ("a" ++ nl ++ "b<P>c" ++ nl ++ nl ++ "d</P>e")%string
     = Some (Ok [span "markdown" 0 3 ("a" ++ nl ++ "b")%string;
                 span "html" 3 14 ("<P>c" ++ nl ++ nl ++ "d</P>")%string;
                 span "markdown" 14 15 "e"]).
Proof. split; vm_compute; reflexivity. Qed.

(** ** The dispatch loop *)

Section DispatchFacts.

Variables markdown2latex html2latex : pyval -> result string.

Lemma convert_loop_concat (l : list entry) (outs : list string) :
  Forall2 (contributes markdown2latex html2latex) l outs ->
  forall outtext,
    convert_loop markdown2latex html2latex outtext l
    = Ok (outtext ++ String.concat "" outs)%string.
Proof.
  induction 1 as [|e out l outs He _ IH]; intros outtext.
  - simpl. now rewrite append_empty_r.
  - assert (Hcat : String.concat "" (out :: outs)
                   = (out ++ String.concat "" outs)%string).
    { destruct outs; simpl; [now rewrite append_empty_r | reflexivity]. }
    rewrite Hcat. cbn [convert_loop].
    destruct He as [s t text rest out Hmd | s t text rest out Hhtml
                   | kind rest Hk1 Hk2].
    + rewrite py_index_0. cbn [bind py_eq]. rewrite String.eqb_refl.
      rewrite py_index_3. cbn [bind]. rewrite Hmd. cbn [bind].
      rewrite IH. now rewrite append_assoc.
    + rewrite py_index_0. cbn [bind py_eq].
      change ("html" =? "markdown")%string with false. cbv iota.
      rewrite String.eqb_refl.
      rewrite py_index_3. cbn [bind]. rewrite Hhtml. cbn [bind].
      rewrite IH. now rewrite append_assoc.
    + rewrite py_index_0. cbn [bind]. rewrite Hk1, Hk2. apply IH.
Qed.

(** C10.  When [feed] has produced its span list and each span
    contributes a string (the markdown converter's result on the text of
    a markdown span, the html converter's on the text of an html span,
    the empty string for a span of any other kind, which is skipped
    without an error), the output is these strings concatenated in span
    order with nothing between them. *)
Theorem extended_markdown2latex_concat (c : class_attrs) (source : string)
    (evs : list event) (self : parser) (outs : list string) :
  feed_events (MarkdownSplitParser c) source evs = Ok self ->
  Forall2 (contributes markdown2latex html2latex) (splitlist self) outs ->
  extended_markdown2latex_events markdown2latex html2latex c source evs
  = Ok (String.concat "" outs).
Proof.
  intros Hfeed Houts. unfold extended_markdown2latex_events.
  rewrite Hfeed. cbn [bind].
  now rewrite (convert_loop_concat _ _ Houts "").
Qed.

End DispatchFacts.

Lemma extended_markdown2latex_concat_witness :
  extended_markdown2latex_events (labelling "M") (labelling "H") fresh_class
    "a<br/>b" [Data "a" (1, 0); StartEndTag "br" [] (1, 1); Data "b" (1, 6)]
  = Ok (String.concat "" ["M(a)"; "H(<br/>)"; "M(b)"]).
Proof.
  apply (extended_markdown2latex_concat (labelling "M") (labelling "H")
           fresh_class "a<br/>b"
           [Data "a" (1, 0); StartEndTag "br" [] (1, 1); Data "b" (1, 6)]
           (mkParser [] [span "markdown" 0 1 "a"; span "html" 1 6 "<br/>";
                         span "markdown" 6 7 "b"] false true "a<br/>b")).
  - reflexivity.
  - repeat constructor.
Defined.

(** ** The scan on fresh class attributes *)

Arguments get_offset : simpl never.
Arguments offset_of : simpl never.
Arguments slen : simpl never.

Lemma get_offset_data (self : parser) (p : getpos) :
  get_offset self p = offset_of (data self) p.
Proof. destruct p. reflexivity. Qed.

Lemma slen_nonneg (s : string) : 0 <= slen s.
Proof. unfold slen. lia. Qed.

Lemma snoc_case {A : Type} (l : list A) :
  l = [] \/ exists l' x, l = l' ++ [x].
Proof. induction l using rev_ind; [left | right]; eauto. Qed.

Lemma snoc_not_nil {A : Type} (l : list A) (x : A) : l ++ [x] <> [].
Proof. destruct l; discriminate. Qed.

Lemma opened_mono (lo lo' : Z) (e : entry) :
  lo <= lo' -> opened lo e -> opened lo' e.
Proof. intros Hle (k & s & -> & Hs). exists k, s. split; [reflexivity | lia]. Qed.

Lemma shaped_mono (lo lo' : Z) (e : entry) :
  lo <= lo' -> shaped lo e -> shaped lo' e.
Proof. intros Hle [H | H]; [left | right]; eauto using opened_mono. Qed.

Lemma shaped_all_mono (lo lo' : Z) (l : list entry) :
  lo <= lo' -> Forall (shaped lo) l -> Forall (shaped lo') l.
Proof. intros Hle H. eapply Forall_impl; [|exact H]. intros e. now apply shaped_mono. Qed.

Lemma opened_close (lo q : Z) (e : entry) :
  opened lo e -> lo <= q -> closed (e ++ [PInt q]).
Proof. intros (k & s & -> & Hs) Hq. exists k, s, q. split; [reflexivity | lia]. Qed.

Lemma opened_new (kind : string) (q lo : Z) :
  q < lo -> opened lo [PStr kind; PInt q].
Proof. intros H. exists kind, q. auto. Qed.

(** Closing the last entry and appending a new open one. *)
Lemma shaped_close_open (lo q lo' : Z) (sl : list entry) (e : entry) (kind : string) :
  Forall (shaped lo) (sl ++ [e]) -> opened lo e -> lo <= q -> q < lo' ->
  Forall (shaped lo') ((sl ++ [e ++ [PInt q]]) ++ [[PStr kind; PInt q]]).
Proof.
  intros Hall Ho Hq Hlo'. apply Forall_app in Hall as [Hsl _].
  apply Forall_app; split; [apply Forall_app; split|].
  - apply (shaped_all_mono lo); [lia | exact Hsl].
  - constructor; [|constructor]. left. eapply opened_close; eauto.
  - constructor; [|constructor]. right. now apply opened_new.
Qed.

Lemma shaped_open (lo q lo' : Z) (sl : list entry) (kind : string) :
  Forall (shaped lo) sl -> lo <= q -> q < lo' ->
  Forall (shaped lo') (sl ++ [[PStr kind; PInt q]]).
Proof.
  intros Hall Hq Hlo'. apply Forall_app; split.
  - apply (shaped_all_mono lo); [lia | exact Hall].
  - constructor; [|constructor]. right. now apply opened_new.
Qed.

Lemma scanning_mono (d : string) (lo lo' : Z) (self : parser) :
  lo <= lo' -> scanning d lo self -> scanning d lo' self.
Proof.
  intros Hle [Hd He Hl Hf]. constructor; auto.
  - eapply shaped_all_mono; eauto.
  - intros H. destruct (Hl H) as (sl & e & Hsl & Ho).
    exists sl, e. split; [exact Hsl | eapply opened_mono; eauto].
Qed.

Lemma scanning_fresh (d : string) :
  scanning d 0 (set_data (MarkdownSplitParser fresh_class) d).
Proof.
  constructor; simpl; auto.
  intros [H | [H | H]]; [now contradiction H | discriminate | discriminate].
Qed.

Lemma handle_starttag_scanning (d : string) (lo : Z) (tag : string)
    (attrs : attrs_t) (p : getpos) (self self' : parser) :
  scanning d lo self -> lo <= offset_of d p ->
  handle_starttag tag attrs p self = Ok self' ->
  scanning d (offset_of d p + 1) self'.
Proof.
  intros Hsc Hlo. unfold handle_starttag.
  destruct (String.eqb tag "img").
  { intros E. injection E as <-. apply (scanning_mono d lo); [lia | exact Hsc]. }
  rewrite get_offset_data.
  destruct Hsc as [Hd He Hl Hf].
  destruct self as [o sl se da dd]. cbn [data opentags splitlist setag datag] in *.
  subst dd. set (q := offset_of d p) in *.
  destruct (snoc_case o) as [-> | (o' & x & ->)].
  - change (len (@nil string) =? 0) with true. cbv iota.
    destruct (da || se) eqn:Hflag.
    + destruct Hl as (sl' & e & -> & Ho).
      { right. destruct da; [left | right]; auto. }
      rewrite append_at_last. cbn. intros E. injection E as <-.
      constructor; cbn.
      * reflexivity.
      * eapply shaped_close_open; eauto. lia.
      * intros _. eexists _, _. split; [reflexivity|]. apply opened_new. lia.
      * auto.
    + apply orb_false_iff in Hflag as [-> ->]. cbn.
      intros E. injection E as <-.
      constructor; cbn.
      * reflexivity.
      * eapply shaped_open; eauto. lia.
      * intros _. eexists _, _. split; [reflexivity|]. apply opened_new. lia.
      * auto.
  - rewrite len_zero_snoc. cbn. intros E. injection E as <-.
    destruct (Hf (snoc_not_nil _ _)) as [-> ->].
    constructor; cbn.
    + reflexivity.
    + apply (shaped_all_mono lo); [lia | exact He].
    + intros _. destruct Hl as (sl' & e & -> & Ho).
      { left. apply snoc_not_nil. }
      exists sl', e. split; [reflexivity|]. apply (opened_mono lo); [lia | exact Ho].
    + auto.
Qed.

Lemma handle_endtag_scanning (d : string) (lo : Z) (tag : string)
    (p : getpos) (self self' : parser) :
  scanning d lo self -> lo <= offset_of d p ->
  handle_endtag tag p self = Ok self' ->
  scanning d (offset_of d p + (slen tag + 3)) self'.
Proof.
  intros [Hd He Hl Hf] Hlo. unfold handle_endtag.
  pose proof (slen_nonneg tag) as Htag.
  destruct self as [o sl se da dd]. cbn [data opentags splitlist setag datag] in *.
  subst dd.
  destruct (snoc_case o) as [-> | (o' & x & ->)].
  { rewrite py_pop_nil. discriminate. }
  rewrite py_pop_snoc. cbn [bind set_opentags opentags splitlist setag datag data].
  destruct (Hf (snoc_not_nil _ _)) as [-> ->].
  destruct Hl as (sl' & e & -> & Ho); [left; apply snoc_not_nil|].
  destruct (snoc_case o') as [-> | (o'' & y & ->)].
  - change (len (@nil string) =? 0) with true. cbv iota.
    rewrite get_offset_data. cbn [data]. rewrite append_at_last. cbn.
    intros E. injection E as <-.
    apply Forall_app in He as [Hsl _].
    constructor; cbn.
    + reflexivity.
    + apply Forall_app; split.
      * apply (shaped_all_mono lo); [lia | exact Hsl].
      * constructor; [|constructor]. left.
        replace (offset_of d p + slen tag + 3) with (offset_of d p + (slen tag + 3)) by lia.
        apply (opened_close lo); [exact Ho | lia].
    + intros [H | [H | H]]; [now contradiction H | discriminate | discriminate].
    + intros H. now contradiction H.
  - rewrite len_zero_snoc. intros E. injection E as <-.
    constructor; cbn.
    + reflexivity.
    + apply (shaped_all_mono lo); [lia | exact He].
    + intros _. exists sl', e. split; [reflexivity|].
      apply (opened_mono lo); [lia | exact Ho].
    + auto.
Qed.

Lemma handle_startendtag_scanning (d : string) (lo : Z) (tag : string)
    (attrs : attrs_t) (p : getpos) (self self' : parser) :
  scanning d lo self -> lo <= offset_of d p ->
  handle_startendtag tag attrs p self = Ok self' ->
  scanning d (offset_of d p + 1) self'.
Proof.
  intros Hsc Hlo. unfold handle_startendtag.
  destruct (len (opentags self) =? 0) eqn:Hdepth.
  2:{ intros E. injection E as <-. apply (scanning_mono d lo); [lia | exact Hsc]. }
  apply len_zero_iff in Hdepth.
  rewrite get_offset_data.
  destruct Hsc as [Hd He Hl Hf].
  destruct self as [o sl se da dd]. cbn [data opentags splitlist setag datag] in *.
  subst dd o. set (q := offset_of d p) in *.
  destruct da.
  - destruct Hl as (sl' & e & -> & Ho); [right; left; reflexivity|].
    rewrite append_at_last. cbn. intros E. injection E as <-.
    constructor; cbn.
    + reflexivity.
    + eapply shaped_close_open; eauto. lia.
    + intros _. eexists _, _. split; [reflexivity|]. apply opened_new. lia.
    + intros H. now contradiction H.
  - cbn. intros E. injection E as <-.
    constructor; cbn.
    + reflexivity.
    + eapply shaped_open; eauto. lia.
    + intros _. eexists _, _. split; [reflexivity|]. apply opened_new. lia.
    + intros H. now contradiction H.
Qed.

Lemma handle_data_scanning (d : string) (lo : Z) (text : string)
    (p : getpos) (self self' : parser) :
  scanning d lo self -> lo <= offset_of d p ->
  handle_data text p self = Ok self' ->
  scanning d (offset_of d p + 1) self'.
Proof.
  intros Hsc Hlo. unfold handle_data.
  destruct ((len (opentags self) =? 0) && negb (datag self)) eqn:Hcond.
  2:{ intros E. injection E as <-. apply (scanning_mono d lo); [lia | exact Hsc]. }
  apply andb_prop in Hcond as [Hdepth Hda].
  apply len_zero_iff in Hdepth. apply negb_true_iff in Hda.
  rewrite get_offset_data.
  destruct Hsc as [Hd He Hl Hf].
  destruct self as [o sl se da dd]. cbn [data opentags splitlist setag datag] in *.
  subst dd o da. set (q := offset_of d p) in *.
  destruct se.
  - destruct Hl as (sl' & e & -> & Ho); [right; right; reflexivity|].
    rewrite append_at_last. cbn. intros E. injection E as <-.
    constructor; cbn.
    + reflexivity.
    + eapply shaped_close_open; eauto. lia.
    + intros _. eexists _, _. split; [reflexivity|]. apply opened_new. lia.
    + intros H. now contradiction H.
  - cbn. intros E. injection E as <-.
    constructor; cbn.
    + reflexivity.
    + eapply shaped_open; eauto. lia.
    + intros _. eexists _, _. split; [reflexivity|]. apply opened_new. lia.
    + intros H. now contradiction H.
Qed.

Lemma handle_scanning (d : string) (lo : Z) (ev : event) (self self' : parser) :
  scanning d lo self -> lo <= offset_of d (ev_at ev) ->
  handle ev self = Ok self' ->
  scanning d (offset_of d (ev_at ev) + ev_extent ev) self'.
Proof.
  destruct ev; simpl.
  - apply handle_starttag_scanning.
  - apply handle_endtag_scanning.
  - apply handle_startendtag_scanning.
  - apply handle_data_scanning.
Qed.


Lemma close_last_scanning (d : string) (lo : Z) (self pre : parser) :
  scanning d lo self -> lo <= slen d ->
  close_last self = Ok pre ->
  data pre = d /\ Forall (shaped lo) (splitlist pre).
Proof.
  intros [Hd He _ _] Hlo. unfold close_last.
  destruct (snoc_case (splitlist self)) as [Hsl | (sl & e & Hsl)]; rewrite Hsl in *.
  { rewrite py_index_nil. discriminate. }
  rewrite py_index_last. cbn [bind].
  destruct (len e =? 2) eqn:Hlen.
  - rewrite append_at_last. cbn [bind]. intros E. injection E as <-.
    cbn [set_splitlist data splitlist]. split; [exact Hd|].
    apply Forall_app in He as [Hsl' Hlast].
    apply Forall_app; split; [exact Hsl'|].
    constructor; [|constructor]. left.
    apply Forall_inv in Hlast. destruct Hlast as [Hc | Ho].
    + destruct Hc as (k & s & t & -> & _). discriminate Hlen.
    + rewrite Hd. apply (opened_close lo); auto.
  - intros E. injection E as <-. split; [exact Hd|]. now rewrite Hsl.
Qed.

Lemma len_map {A B : Type} (f : A -> B) (l : list A) : len (map f l) = len l.
Proof. unfold len. now rewrite length_map. Qed.

Lemma with_text_closed (d : string) (k : string) (s t : Z) :
  with_text d [PStr k; PInt s; PInt t] = span k s t (slice d s t).
Proof. reflexivity. Qed.

(** On entries that all have their two boundaries, the end after the
    start, the final loop pops nothing and gives each entry its text; an
    entry left without its end makes it raise. *)
Lemma post_loop_closed (d : string) (lo : Z) :
  forall rest done n r,
    Forall (shaped lo) rest ->
    (List.length rest <= n)%nat ->
    post_loop n d (map (with_text d) done ++ rest) (len done) 0 = Ok r ->
    Forall closed rest /\ r = map (with_text d) (done ++ rest).
Proof.
  induction rest as [|e rest IH]; intros done n r Hall Hn Hloop.
  - split; [constructor|].
    rewrite app_nil_r in *.
    destruct n; simpl in Hloop.
    + now injection Hloop as <-.
    + rewrite len_map, Z.leb_refl in Hloop. now injection Hloop as <-.
  - destruct n as [|n]; [simpl in Hn; lia|].
    inversion Hall as [|? ? Hsh Hall']; subst.
    cbn [post_loop] in Hloop.
    pose proof (len_nonneg rest) as Hrest.
    replace (len (map (with_text d) done ++ e :: rest) <=? len done) with false
      in Hloop.
    2:{ symmetry. apply Z.leb_gt. rewrite len_app, len_map.
        change (e :: rest) with ([e] ++ rest). rewrite len_app.
        change (len [e]) with 1. lia. }
    rewrite Z.sub_0_r in Hloop.
    rewrite <- (len_map (with_text d) done) in Hloop.
    rewrite py_index_middle in Hloop. cbn [bind] in Hloop.
    destruct Hsh as [(k & s & t & -> & Hst) | (k & s & -> & _)].
    2:{ discriminate Hloop. }
    change (py_index [PStr k; PInt s; PInt t] 1) with (@Ok pyval (PInt s)) in Hloop.
    change (py_index [PStr k; PInt s; PInt t] 2) with (@Ok pyval (PInt t)) in Hloop.
    cbn [bind py_slice] in Hloop.
    rewrite append_at_middle in Hloop. cbn [bind] in Hloop.
    rewrite py_index_middle in Hloop. cbn [bind app] in Hloop.
    change (py_index [PStr k; PInt s; PInt t; PStr (slice d s t)] (-3))
      with (@Ok pyval (PInt s)) in Hloop.
    change (py_index [PStr k; PInt s; PInt t; PStr (slice d s t)] (-2))
      with (@Ok pyval (PInt t)) in Hloop.
    cbn [bind py_eq] in Hloop.
    replace (s =? t) with false in Hloop by (symmetry; apply Z.eqb_neq; lia).
    specialize (IH (done ++ [[PStr k; PInt s; PInt t]]) n r Hall').
    rewrite map_app, <- app_assoc in IH. cbn [map app] in IH.
    rewrite with_text_closed in IH. unfold span in IH.
    rewrite len_map in Hloop.
    rewrite len_app in IH. change (len [[PStr k; PInt s; PInt t]]) with 1 in IH.
    destruct IH as [Hc Hr]; [simpl in Hn; lia | exact Hloop |].
    split.
    + constructor; [|exact Hc]. exists k, s, t. auto.
    + rewrite Hr, <- app_assoc. reflexivity.
Qed.




(** ** Reports that tile the buffer give a partition *)




Lemma tiling_mono (d : string) (m : mode) (lo lo' : Z) (self : parser) :
  lo <= lo' -> tiling d m lo self -> tiling d m lo' self.
Proof.
  intros Hle H. destruct H; constructor; auto; lia.
Qed.


Lemma tiling_data (d : string) (m : mode) (lo : Z) (self : parser) :
  tiling d m lo self -> data self = d.
Proof. intros H. destruct H; reflexivity. Qed.















(** * Further properties of the module *)

(** ** get_offset on a buffer of one line *)

Lemma find_char_absent (c : ascii) (s : string) :
  all_chars (fun a => negb (Ascii.eqb a c)) s = true ->
  forall i start, find_char c s i start = -1.
Proof.
  induction s as [|a s IH]; simpl; [reflexivity|].
  intros H i start. apply andb_prop in H as [Ha Hs].
  apply negb_true_iff in Ha. rewrite Ha, andb_false_r. now apply IH.
Qed.

Lemma skip_lines_one_line (d : string) (n : nat) :
  all_chars not_newline d = true -> skip_lines n d 0 = 0.
Proof.
  intros H. induction n as [|n IH]; simpl; [reflexivity|].
  unfold py_find. change (0 <? 0) with false. cbv iota.
  rewrite (find_char_absent newline d H). exact IH.
Qed.

(** X2.  In a buffer without a newline, [get_offset] answers the column
    whatever line number is reported: each search for a newline finds
    none, [find] answers -1 and the position restarts at 0; no line number
    is out of range and nothing is raised. *)
Theorem get_offset_one_line (self : parser) (lin offset : Z) :
  all_chars not_newline (data self) = true ->
  get_offset self (lin, offset) = offset.
Proof.
  intros H. unfold get_offset.
  now rewrite (skip_lines_one_line _ _ H).
Qed.

Lemma get_offset_one_line_witness :
  get_offset (set_data (MarkdownSplitParser fresh_class) "a<br/>b") (7, 6) = 6.
Proof.
  apply (get_offset_one_line
           (set_data (MarkdownSplitParser fresh_class) "a<br/>b") 7 6).
  reflexivity.
Defined.

(** ** The two flags *)

Lemma py_pop_ok_nonempty {A : Type} (l o : list A) :
  py_pop l = Ok o -> exists x, l = o ++ [x].
Proof.
  destruct (snoc_case l) as [-> | (l' & x & ->)].
  - rewrite py_pop_nil. discriminate.
  - rewrite py_pop_snoc. intros E. injection E as <-. now exists x.
Qed.

Ltac crack_handler :=
  cbv zeta;
  repeat (match goal with
          | |- context [py_pop ?l] => destruct (py_pop l) eqn:?
          | |- context [append_at ?l ?i ?v] => destruct (append_at l i v) eqn:?
          | |- context [if ?b then _ else _] => destruct b eqn:?
          end; cbn [bind]; cbv zeta).

Ltac flags_facts :=
  repeat match goal with
         | H : (len (opentags ?s) =? 0) = true |- _ => apply len_zero_iff in H
         | H : (len (opentags ?s) =? 0) = false |- _ =>
             assert (opentags s <> [])
               by (let Hn := fresh in intros Hn; rewrite Hn in H; discriminate H);
             clear H
         | H : _ && _ = true |- _ => apply andb_prop in H as [? ?]
         | H : _ || _ = false |- _ => apply orb_false_iff in H as [? ?]
         | H : negb _ = true |- _ => apply negb_true_iff in H
         end.

Lemma handle_flags (ev : event) (self self' : parser) :
  flags_ok self -> handle ev self = Ok self' -> flags_ok self'.
Proof.
  intros [Hopen Hboth].
  destruct ev as [tag attrs p | tag p | tag attrs p | text p]; cbn [handle];
    unfold handle_starttag, handle_endtag, handle_startendtag, handle_data.
  1, 3, 4:
    crack_handler; intros E; try discriminate E; injection E as <-;
    flags_facts; unfold flags_ok; destruct self as [o sl se da dd];
    cbn in *; subst;
    (split; [intros Hne; try (now contradiction Hne); auto | auto]).
  destruct (py_pop (opentags self)) as [o|] eqn:Hpop; cbn [bind]; [|discriminate].
  apply py_pop_ok_nonempty in Hpop as (x & Hx).
  assert (Hne : opentags self <> []) by (rewrite Hx; apply snoc_not_nil).
  destruct (Hopen Hne) as [Hs Hd].
  cbn [set_opentags opentags splitlist]. crack_handler; intros E;
    try discriminate E; injection E as <-; unfold flags_ok; cbn;
    rewrite Hs, Hd; auto.
Qed.

Lemma run_flags (evs : list event) :
  forall self self', flags_ok self -> run evs self = Ok self' -> flags_ok self'.
Proof.
  induction evs as [|ev evs IH]; intros self self' Hok; simpl.
  - intros E. now injection E as <-.
  - destruct (handle ev self) as [self1|] eqn:Hev; [|discriminate].
    cbn [bind]. apply IH. eapply handle_flags; eauto.
Qed.

(** X3.  Whatever the class lists hold and whatever is reported, after
    the events a new parser has handled its two flags are never set
    together, and neither is set while [opentags] is not empty. *)
Theorem flags_never_both (c : class_attrs) (d : string) (evs : list event)
    (self : parser) :
  run evs (set_data (MarkdownSplitParser c) d) = Ok self ->
  setag self && datag self = false
  /\ (opentags self <> [] -> setag self = false /\ datag self = false).
Proof.
  intros Hrun.
  assert (H0 : flags_ok (set_data (MarkdownSplitParser c) d)).
  { split; cbn; auto. }
  destruct (run_flags evs _ _ H0 Hrun) as [Hopen Hboth]. auto.
Qed.

Lemma flags_never_both_witness :
  setag (mkParser [] [[PStr "markdown"; PInt 0; PInt 1]; [PStr "html"; PInt 1]]
           true false "a<br/>")
  && datag (mkParser [] [[PStr "markdown"; PInt 0; PInt 1]; [PStr "html"; PInt 1]]
              true false "a<br/>") = false
  /\ (opentags (mkParser [] [[PStr "markdown"; PInt 0; PInt 1]; [PStr "html"; PInt 1]]
                 true false "a<br/>") <> [] ->
      setag (mkParser [] [[PStr "markdown"; PInt 0; PInt 1]; [PStr "html"; PInt 1]]
               true false "a<br/>") = false
      /\ datag (mkParser [] [[PStr "markdown"; PInt 0; PInt 1]; [PStr "html"; PInt 1]]
                  true false "a<br/>") = false).
Proof.
  apply (flags_never_both fresh_class "a<br/>"
           [Data "a" (1, 0); StartEndTag "br" [] (1, 1)]).
  reflexivity.
Defined.

(** ** The depth of nesting *)

Lemma count_cons (p : event -> bool) (ev : event) (evs : list event) :
  count p (ev :: evs) = (if p ev then 1 else 0) + count p evs.
Proof.
  unfold count, len. cbn [filter]. destruct (p ev); cbn [List.length]; lia.
Qed.

Lemma count_nonneg (p : event -> bool) (evs : list event) : 0 <= count p evs.
Proof. unfold count. apply len_nonneg. Qed.

Lemma handle_depth (ev : event) (self self' : parser) :
  handle ev self = Ok self' ->
  len (opentags self')
  = len (opentags self) + (if pushes ev then 1 else 0)
    - (if is_end ev then 1 else 0).
Proof.
  destruct ev as [tag attrs p | tag p | tag attrs p | text p];
    cbn [handle pushes is_end];
    unfold handle_starttag, handle_endtag, handle_startendtag, handle_data.
  - destruct (String.eqb tag "img"); cbn [negb].
    + intros E. injection E as <-. lia.
    + crack_handler; intros E; try discriminate E; injection E as <-;
        cbn; rewrite len_app; change (len [tag]) with 1; lia.
  - destruct (py_pop (opentags self)) as [o|] eqn:Hpop; cbn [bind]; [|discriminate].
    apply py_pop_ok_nonempty in Hpop as (x & Hx). rewrite Hx, len_app.
    change (len [x]) with 1.
    cbn [set_opentags opentags splitlist]. crack_handler; intros E;
      try discriminate E; injection E as <-; cbn; lia.
  - crack_handler; intros E; try discriminate E; injection E as <-; cbn; lia.
  - crack_handler; intros E; try discriminate E; injection E as <-; cbn; lia.
Qed.

Lemma run_depth (evs : list event) :
  forall self self',
    run evs self = Ok self' ->
    len (opentags self')
    = len (opentags self) + count pushes evs - count is_end evs.
Proof.
  induction evs as [|ev evs IH]; intros self self'; simpl.
  - intros E. injection E as <-. unfold count. simpl. change (len []) with 0. lia.
  - destruct (handle ev self) as [self1|] eqn:Hev; [|discriminate].
    cbn [bind]. intros Hrun. rewrite (IH _ _ Hrun), (handle_depth _ _ _ Hev).
    rewrite !count_cons. lia.
Qed.

(** X4.  When the events are handled without an exception, the number
    of open tags at the end is the number the class list held, plus the
    start tags other than img, minus the end tags: an end tag closes the
    innermost open tag whatever the two names are.  And at no point of
    the scan have more end tags been reported than the class list held
    tags plus the start tags other than img reported so far. *)
Theorem depth_counts_tags (c : class_attrs) (d : string) (evs : list event)
    (self : parser) :
  run evs (set_data (MarkdownSplitParser c) d) = Ok self ->
  len (opentags self)
  = len (cls_opentags c) + count pushes evs - count is_end evs
  /\ forall before after,
       evs = before ++ after ->
       count is_end before <= len (cls_opentags c) + count pushes before.
Proof.
  intros Hrun. split.
  - now rewrite (run_depth _ _ _ Hrun).
  - intros before after ->. rewrite run_app in Hrun.
    destruct (run before _) as [s1|] eqn:Hb; [|discriminate].
    pose proof (run_depth _ _ _ Hb) as Hd. cbn [set_data opentags MarkdownSplitParser] in Hd.
    pose proof (len_nonneg (opentags s1)). lia.
Qed.

Lemma depth_counts_tags_witness :
  len (opentags (mkParser ["div"] [[PStr "html"; PInt 0]] false false
                   "<div><p></b>"))
  = len (cls_opentags fresh_class)
    + count pushes [StartTag "div" [] (1, 0); StartTag "p" [] (1, 5);
                    EndTag "b" (1, 8)]
    - count is_end [StartTag "div" [] (1, 0); StartTag "p" [] (1, 5);
                    EndTag "b" (1, 8)]
  /\ forall before after,
       [StartTag "div" [] (1, 0); StartTag "p" [] (1, 5); EndTag "b" (1, 8)]
       = before ++ after ->
       count is_end before <= len (cls_opentags fresh_class) + count pushes before.
Proof.
  apply (depth_counts_tags fresh_class "<div><p></b>"
           [StartTag "div" [] (1, 0); StartTag "p" [] (1, 5); EndTag "b" (1, 8)]).
  reflexivity.
Defined.

(** ** Nothing that opens a span *)




(** ** Conversions that fail, text without tags *)

Lemma py_index_short {A : Type} (l : list A) (k : nat) :
  (List.length l <= k)%nat -> py_index l (Z.of_nat k) = Raise IndexError.
Proof.
  intros H. unfold py_index, norm_index, len.
  destruct (Z.ltb_spec (Z.of_nat k) 0) as [H0|H0]; [lia|].
  destruct (Z.ltb_spec (Z.of_nat k) 0) as [H1|H1]; [lia|].
  destruct (Z.leb_spec (Z.of_nat (List.length l)) (Z.of_nat k)) as [H2|H2]; [|lia].
  reflexivity.
Qed.

Section ConversionFacts.

Variables markdown2latex html2latex : pyval -> result string.

Lemma convert_loop_fails (before after : list entry) (outs : list string)
    (e : entry) (x : pyexc) :
  Forall2 (contributes markdown2latex html2latex) before outs ->
  fails markdown2latex html2latex e x ->
  forall outtext,
    convert_loop markdown2latex html2latex outtext (before ++ e :: after)
    = Raise x.
Proof.
  intros Hbefore Hfail.
  induction Hbefore as [|b out before outs Hb _ IH]; intros outtext.
  - cbn [app convert_loop].
    destruct Hfail as [s t text rest x Hmd | s t text rest x Hhtml |
                      | kind rest Hkind Hshort].
    + rewrite py_index_0. cbn [bind py_eq]. rewrite String.eqb_refl.
      rewrite py_index_3. cbn [bind]. rewrite Hmd. reflexivity.
    + rewrite py_index_0. cbn [bind py_eq].
      change ("html" =? "markdown")%string with false. cbv iota.
      rewrite String.eqb_refl, py_index_3. cbn [bind]. rewrite Hhtml.
      reflexivity.
    + rewrite py_index_nil. reflexivity.
    + rewrite py_index_0. cbn [bind].
      assert (Hno : py_index (kind :: rest) 3 = Raise IndexError).
      { change 3 with (Z.of_nat 3). apply py_index_short. simpl. lia. }
      destruct (py_eq kind (PStr "markdown")).
      * rewrite Hno. reflexivity.
      * cbn [orb] in Hkind. rewrite Hkind, Hno. reflexivity.
  - cbn [app convert_loop].
    destruct Hb as [s t text rest out Hmd | s t text rest out Hhtml
                   | kind rest Hk1 Hk2].
    + rewrite py_index_0. cbn [bind py_eq]. rewrite String.eqb_refl.
      rewrite py_index_3. cbn [bind]. rewrite Hmd. cbn [bind]. apply IH.
    + rewrite py_index_0. cbn [bind py_eq].
      change ("html" =? "markdown")%string with false. cbv iota.
      rewrite String.eqb_refl, py_index_3. cbn [bind]. rewrite Hhtml.
      cbn [bind]. apply IH.
    + rewrite py_index_0. cbn [bind]. rewrite Hk1, Hk2. apply IH.
Qed.

(** X10.  The first span that cannot be converted ends
    [extended_markdown2latex]: when every span before it contributes a
    string and its own conversion raises (the converter's exception, or
    IndexError for an empty entry or a markdown or html entry without a
    fourth field), the call raises that exception, whatever spans
    follow; no partial output is returned. *)
Theorem extended_markdown2latex_first_failure (c : class_attrs)
    (source : string) (evs : list event) (self : parser)
    (before after : list entry) (outs : list string) (e : entry) (x : pyexc) :
  feed_events (MarkdownSplitParser c) source evs = Ok self ->
  splitlist self = before ++ e :: after ->
  Forall2 (contributes markdown2latex html2latex) before outs ->
  fails markdown2latex html2latex e x ->
  extended_markdown2latex_events markdown2latex html2latex c source evs
  = Raise x.
Proof.
  intros Hfeed Hsplit Hbefore Hfail. unfold extended_markdown2latex_events.
  rewrite Hfeed. cbn [bind]. rewrite Hsplit.
  now apply (convert_loop_fails before after outs).
Qed.

End ConversionFacts.

Lemma extended_markdown2latex_first_failure_witness :
  extended_markdown2latex_events (labelling "M")
    (fun _ => Raise (Exc "ConverterUnavailableError")) fresh_class
    "a<br/>b" [Data "a" (1, 0); StartEndTag "br" [] (1, 1); Data "b" (1, 6)]
  = Raise (Exc "ConverterUnavailableError").
Proof.
  apply (extended_markdown2latex_first_failure (labelling "M")
           (fun _ => Raise (Exc "ConverterUnavailableError")) fresh_class
           "a<br/>b"
           [Data "a" (1, 0); StartEndTag "br" [] (1, 1); Data "b" (1, 6)]
           (mkParser [] [span "markdown" 0 1 "a"; span "html" 1 6 "<br/>";
                         span "markdown" 6 7 "b"] false true "a<br/>b")
           [span "markdown" 0 1 "a"] [span "markdown" 6 7 "b"] ["M(a)"]
           (span "html" 1 6 "<br/>")).
  - reflexivity.
  - reflexivity.
  - repeat constructor.
  - constructor. reflexivity.
Defined.

Section PlainText.

Variable pandoc :
  pyval -> string -> string -> option (list string) -> result string.
Variable html2latex : pyval -> result string.


End PlainText.


(** ** get_offset undoes the (line, column) bookkeeping *)

Lemma slen_cons (c : ascii) (s : string) : slen (String c s) = 1 + slen s.
Proof. unfold slen. cbn [String.length]. lia. Qed.

Lemma slen_append (a b : string) : slen (a ++ b)%string = slen a + slen b.
Proof.
  induction a as [|c a IH]; [reflexivity|].
  cbn [append]. rewrite !slen_cons, IH. lia.
Qed.

(** The first [c] at or after [start] in [skipped ++ cur ++ c :: tail],
    when [start] is where [cur] begins and [cur] holds no [c]. *)
Lemma find_char_skip (c : ascii) (cur tail : string) :
  all_chars (fun a => negb (Ascii.eqb a c)) cur = true ->
  forall skipped i,
    find_char c (skipped ++ cur ++ String c tail)%string i (i + slen skipped)
    = i + slen skipped + slen cur.
Proof.
  intros Hcur. induction skipped as [|a skipped IH]; intros i.
  - cbn [append]. change (slen "") with 0. rewrite Z.add_0_r.
    revert i. induction cur as [|a cur IHc]; intros i.
    + cbn [append find_char]. rewrite Z.leb_refl, Ascii.eqb_refl.
      change (slen "") with 0. cbn [andb]. lia.
    + cbn [all_chars] in Hcur. apply andb_prop in Hcur as [Ha Hrest].
      apply negb_true_iff in Ha.
      cbn [append find_char]. rewrite Ha, andb_false_r.
      assert (Hgen : forall j start, start <= j ->
                find_char c (cur ++ String c tail)%string j start
                = j + slen cur).
      { clear IHc Ha. induction cur as [|b cur IHb]; intros j start Hle.
        - cbn [append find_char]. rewrite Ascii.eqb_refl.
          replace (start <=? j) with true by (symmetry; apply Z.leb_le; lia).
          change (slen "") with 0. cbn [andb]. lia.
        - cbn [all_chars] in Hrest. apply andb_prop in Hrest as [Hb Hrest].
          apply negb_true_iff in Hb.
          cbn [append find_char]. rewrite Hb, andb_false_r.
          rewrite (IHb Hrest) by lia. rewrite slen_cons. lia. }
      rewrite Hgen by lia. rewrite slen_cons. lia.
  - cbn [append find_char].
    pose proof (slen_nonneg skipped) as Hs. rewrite slen_cons.
    replace (i + (1 + slen skipped) <=? i) with false
      by (symmetry; apply Z.leb_gt; lia).
    cbn [andb].
    replace (i + (1 + slen skipped)) with ((i + 1) + slen skipped) by lia.
    rewrite IH. lia.
Qed.

Lemma py_find_skip (c : ascii) (skipped cur tail : string) :
  all_chars (fun a => negb (Ascii.eqb a c)) cur = true ->
  py_find c (skipped ++ cur ++ String c tail)%string (slen skipped)
  = slen skipped + slen cur.
Proof.
  intros Hcur. unfold py_find.
  pose proof (slen_nonneg skipped) as Hs.
  destruct (Z.ltb_spec (slen skipped) 0) as [H|H]; [lia|].
  exact (find_char_skip c cur tail Hcur skipped 0).
Qed.

Lemma append_assoc3 (a b c : string) (x : ascii) :
  (a ++ b ++ String x c)%string = ((a ++ b ++ String x "") ++ c)%string.
Proof. rewrite !append_assoc. reflexivity. Qed.

Lemma all_chars_snoc (p : ascii -> bool) (s : string) (a : ascii) :
  all_chars p s = true -> p a = true ->
  all_chars p (s ++ String a "")%string = true.
Proof.
  intros Hs Ha. induction s as [|b s IH]; cbn [append all_chars].
  - now rewrite Ha.
  - cbn [all_chars] in Hs. apply andb_prop in Hs as [Hb Hs].
    rewrite Hb. cbn [andb]. now apply IH.
Qed.

(** From a line start [slen skipped], with [cur] already read on the
    current line: reading [pre] moves the line counter by its newlines,
    and skipping as many lines from the line start, then adding the
    column, gives the offset reached. *)
Lemma skip_lines_updatepos (pre : string) :
  forall skipped cur rest lin,
    all_chars not_newline cur = true ->
    fst (updatepos pre (lin, slen cur)) = lin + Z.of_nat (newlines pre)
    /\ skip_lines (newlines pre) (skipped ++ cur ++ pre ++ rest)%string
         (slen skipped)
       + snd (updatepos pre (lin, slen cur))
       = slen skipped + slen cur + slen pre.
Proof.
  induction pre as [|a pre IH]; intros skipped cur rest lin Hcur.
  - cbn [updatepos newlines skip_lines fst snd]. change (slen "") with 0.
    split; lia.
  - cbn [updatepos newlines]. destruct (Ascii.eqb a newline) eqn:Ha.
    + apply Ascii.eqb_eq in Ha. subst a.
      cbn [skip_lines append].
      rewrite (py_find_skip newline skipped cur (pre ++ rest) Hcur).
      specialize (IH (skipped ++ cur ++ String newline "")%string ""
                     rest (lin + 1) eq_refl).
      change (slen "") with 0 in IH. cbn [append] in IH.
      rewrite <- append_assoc3 in IH.
      rewrite !slen_append, slen_cons in IH. change (slen "") with 0 in IH.
      replace (slen skipped + slen cur + 1)
        with (slen skipped + (slen cur + (1 + 0))) by lia.
      destruct IH as [IH1 IH2]. rewrite slen_cons. split; lia.
    + specialize (IH skipped (cur ++ String a "")%string rest lin).
      rewrite slen_append, slen_cons in IH. change (slen "") with 0 in IH.
      replace (slen cur + (1 + 0)) with (slen cur + 1) in IH by lia.
      rewrite append_assoc in IH. cbn [append] in IH.
      cbn [append]. rewrite slen_cons.
      destruct IH as [IH1 IH2]; [|split; lia].
      apply all_chars_snoc; [exact Hcur|]. unfold not_newline. now rewrite Ha.
Qed.

(** X1.  [get_offset] undoes the tokenizer's bookkeeping: for the (line,
    column) position of an offset in the buffer (line 1 plus the
    newlines before the offset, column the number of characters after
    the last of them), it answers that offset. *)
Theorem get_offset_position (self : parser) (pre rest : string) :
  data self = (pre ++ rest)%string ->
  get_offset self (updatepos pre (1, 0)) = slen pre.
Proof.
  intros Hd.
  destruct (skip_lines_updatepos pre "" "" rest 1 eq_refl) as [Hl Hs].
  change (slen "") with 0 in *. cbn [append] in Hs.
  destruct (updatepos pre (1, 0)) as [lin col] eqn:Hp.
  cbn [fst snd] in *. unfold get_offset. rewrite Hd, Hl.
  replace (Z.to_nat (1 + Z.of_nat (newlines pre) - 1)) with (newlines pre) by lia.
  lia.
Qed.

Lemma get_offset_position_witness :
  get_offset
    (set_data (MarkdownSplitParser fresh_class)
       (String "a" (String newline (String "b" (String newline "cd<br/>e")))))
    (updatepos (String "a" (String newline (String "b" (String newline "cd"))))
       (1, 0))
  = slen (String "a" (String newline (String "b" (String newline "cd")))).
Proof.
  apply (get_offset_position
           (set_data (MarkdownSplitParser fresh_class)
              (String "a" (String newline (String "b" (String newline "cd<br/>e")))))
           (String "a" (String newline (String "b" (String newline "cd"))))
           "<br/>e").
  reflexivity.
Defined.

(** ** Scanning only adds *)

Lemma grown_refl (l : list entry) : grown l l.
Proof.
  induction l as [|e l IH]; [constructor|].
  rewrite <- (app_nil_r e) at 2. now constructor.
Qed.

Lemma grown_trans (a b c : list entry) : grown a b -> grown b c -> grown a c.
Proof.
  intros Hab. revert c. induction Hab as [|e more old new _ IH]; intros c Hbc.
  - constructor.
  - inversion Hbc as [|e' more' old' new' Hrest]; subst.
    rewrite <- app_assoc. constructor. now apply IH.
Qed.

Lemma grown_update (k : nat) (v : pyval) (l : list entry) :
  grown l (update_nth k (fun e => e ++ [v]) l).
Proof.
  revert k. induction l as [|e l IH]; intros k; [constructor|].
  destruct k; cbn [update_nth].
  - constructor. apply grown_refl.
  - rewrite <- (app_nil_r e) at 2. constructor. apply IH.
Qed.

Lemma grown_snoc (l added : list entry) : grown l (l ++ added).
Proof.
  induction l as [|e l IH]; [constructor|].
  cbn [app]. rewrite <- (app_nil_r e) at 2. now constructor.
Qed.

Lemma append_at_grown (l l' : list entry) (i : Z) (v : pyval) :
  append_at l i v = Ok l' -> grown l l'.
Proof.
  unfold append_at. destruct (norm_index l i); [|discriminate].
  intros E. injection E as <-. apply grown_update.
Qed.

Lemma handle_grown (ev : event) (self self' : parser) :
  handle ev self = Ok self' -> grown (splitlist self) (splitlist self').
Proof.
  destruct ev as [tag attrs p | tag p | tag attrs p | text p]; cbn [handle];
    unfold handle_starttag, handle_endtag, handle_startendtag, handle_data.
  1, 3, 4:
    crack_handler; intros E; try discriminate E; injection E as <-; cbn;
    try apply grown_refl; try apply grown_snoc;
    match goal with
    | H : append_at _ _ _ = Ok _ |- _ => apply append_at_grown in H
    end;
    try assumption;
    (eapply grown_trans; [eassumption | apply grown_snoc]).
  destruct (py_pop (opentags self)) as [o|]; cbn [bind]; [|discriminate].
  cbn [set_opentags opentags splitlist]. crack_handler; intros E;
    try discriminate E; injection E as <-; cbn;
    first [apply grown_refl | eapply append_at_grown; eauto].
Qed.

Lemma run_grown (evs : list event) :
  forall self self',
    run evs self = Ok self' -> grown (splitlist self) (splitlist self').
Proof.
  induction evs as [|ev evs IH]; intros self self'; simpl.
  - intros E. injection E as <-. apply grown_refl.
  - destruct (handle ev self) as [self1|] eqn:Hev; [|discriminate].
    cbn [bind]. intros Hrun.
    eapply grown_trans; [eapply handle_grown; eauto | now apply IH].
Qed.

Lemma close_last_grown (self pre : parser) :
  close_last self = Ok pre -> grown (splitlist self) (splitlist pre).
Proof.
  unfold close_last.
  destruct (py_index (splitlist self) (-1)) as [last|]; cbn [bind]; [|discriminate].
  destruct (len last =? 2).
  - destruct (append_at _ _ _) as [sl|] eqn:Happ; cbn [bind]; [|discriminate].
    intros E. injection E as <-. cbn. eapply append_at_grown; eauto.
  - intros E. injection E as <-. apply grown_refl.
Qed.

(** X5.  Up to the final loop of [feed], nothing is taken from
    [splitlist]: every entry the class list held when the parser was
    created is still there, at the same position and with the same fields
    as a prefix, whatever is reported.  The entries an earlier parser
    left are therefore part of what a later one scans into. *)
Theorem scan_keeps_entries (c : class_attrs) (d : string) (evs : list event)
    (pre : parser) :
  scan (MarkdownSplitParser c) d evs = Ok pre ->
  grown (cls_splitlist c) (splitlist pre)
  /\ (List.length (cls_splitlist c) <= List.length (splitlist pre))%nat.
Proof.
  intros Hscan. unfold scan in Hscan.
  destruct (run evs _) as [self1|] eqn:Hrun; [|discriminate].
  cbn [bind] in Hscan.
  assert (Hg : grown (cls_splitlist c) (splitlist pre)).
  { eapply grown_trans; [exact (run_grown _ _ _ Hrun)|].
    now apply close_last_grown. }
  split; [exact Hg|].
  clear -Hg. induction Hg; simpl; lia.
Qed.

Lemma scan_keeps_entries_witness :
  grown (cls_splitlist (mkClass [] [span "markdown" 0 1 "a"]))
    (splitlist (mkParser [] [span "markdown" 0 1 "a"; [PStr "markdown"; PInt 0; PInt 1]]
                  false true "b"))
  /\ (List.length (cls_splitlist (mkClass [] [span "markdown" 0 1 "a"]))
      <= List.length
           (splitlist (mkParser [] [span "markdown" 0 1 "a";
                                    [PStr "markdown"; PInt 0; PInt 1]]
                         false true "b")))%nat.
Proof.
  apply (scan_keeps_entries (mkClass [] [span "markdown" 0 1 "a"]) "b"
           [Data "b" (1, 0)]).
  reflexivity.
Defined.

(** ** The one exception of feed *)





















(** ** Two self-closing tags at depth 0 *)












(** ** The final loop when a span is empty *)

Lemma py_pop_at_middle {A : Type} (l r : list A) (x : A) :
  py_pop_at (l ++ x :: r) (len l) = Ok (l ++ r).
Proof.
  unfold py_pop_at, len. rewrite norm_index_nat.
  - f_equal. induction l as [|y l IH]; simpl; [reflexivity | now rewrite IH].
  - rewrite length_app. simpl. lia.
Qed.

Lemma len_middle_gt {A : Type} (l r : list A) (x : A) (i : Z) :
  i <= len l -> (len (l ++ x :: r) <=? i) = false.
Proof.
  intros Hi. apply Z.leb_gt. rewrite len_app. unfold len at 2.
  cbn [List.length]. lia.
Qed.

Lemma len_middle2_gt {A : Type} (l r : list A) (x y : A) :
  (len (l ++ x :: y :: r) <=? len l + 1) = false.
Proof.
  apply Z.leb_gt. rewrite len_app. unfold len. cbn [List.length]. lia.
Qed.

(** One turn of the loop before anything was popped, on an entry with
    its two boundaries. *)
Lemma post_loop_turn (n : nat) (d : string) (done rest : list entry)
    (k : string) (s t : Z) :
  post_loop (S n) d (done ++ [PStr k; PInt s; PInt t] :: rest) (len done) 0
  = if s =? t then post_loop n d (done ++ rest) (len done + 1) 1
    else post_loop n d (done ++ span k s t (slice d s t) :: rest)
           (len done + 1) 0.
Proof.
  cbn [post_loop]. rewrite len_middle_gt by lia. rewrite Z.sub_0_r.
  rewrite py_index_middle. cbn [bind].
  change (py_index [PStr k; PInt s; PInt t] 1) with (@Ok pyval (PInt s)).
  change (py_index [PStr k; PInt s; PInt t] 2) with (@Ok pyval (PInt t)).
  cbn [bind py_slice]. rewrite append_at_middle. cbn [bind app].
  rewrite py_index_middle. cbn [bind].
  change (py_index [PStr k; PInt s; PInt t; PStr (slice d s t)] (-3))
    with (@Ok pyval (PInt s)).
  change (py_index [PStr k; PInt s; PInt t; PStr (slice d s t)] (-2))
    with (@Ok pyval (PInt t)).
  cbn [bind py_eq]. destruct (s =? t); [|reflexivity].
  rewrite py_pop_at_middle. reflexivity.
Qed.

(** One turn after a pop: the text goes to the entry one place before
    the one the iterator yields, and that one, having no text yet, is not
    found empty. *)
Lemma post_loop_turn_after_pop (n : nat) (d : string) (done rest : list entry)
    (k k' : string) (s t s' t' : Z) :
  post_loop (S n) d
    (done ++ [PStr k; PInt s; PInt t] :: [PStr k'; PInt s'; PInt t'] :: rest)
    (len done + 1) 1
  = post_loop n d
      ((done ++ [span k s t (slice d s t)])
         ++ [PStr k'; PInt s'; PInt t'] :: rest)
      (len (done ++ [span k s t (slice d s t)]) + 1) 1.
Proof.
  cbn [post_loop].
  rewrite len_middle2_gt.
  replace (len done + 1 - 1) with (len done) by lia.
  rewrite py_index_middle. cbn [bind].
  change (py_index [PStr k; PInt s; PInt t] 1) with (@Ok pyval (PInt s)).
  change (py_index [PStr k; PInt s; PInt t] 2) with (@Ok pyval (PInt t)).
  cbn [bind py_slice]. rewrite append_at_middle. cbn [bind app].
  assert (Hlen : len (done ++ [span k s t (slice d s t)]) = len done + 1).
  { rewrite len_app. reflexivity. }
  replace (done ++ [PStr k; PInt s; PInt t; PStr (slice d s t)]
             :: [PStr k'; PInt s'; PInt t'] :: rest)
    with ((done ++ [span k s t (slice d s t)])
            ++ [PStr k'; PInt s'; PInt t'] :: rest)
    by (rewrite <- app_assoc; reflexivity).
  rewrite <- Hlen. rewrite py_index_middle. cbn [bind].
  change (py_index [PStr k'; PInt s'; PInt t'] (-3)) with (@Ok pyval (PStr k')).
  change (py_index [PStr k'; PInt s'; PInt t'] (-2)) with (@Ok pyval (PInt s')).
  cbn [bind py_eq]. reflexivity.
Qed.

Lemma post_loop_after_pop (d : string) :
  forall rest done x n,
    triple x -> Forall triple rest -> (List.length rest <= n)%nat ->
    post_loop n d (done ++ x :: rest) (len done + 1) 1
    = Ok (done ++ text_all_but_last d (x :: rest)).
Proof.
  induction rest as [|y rest IH]; intros done x n Hx Hrest Hn.
  - cbn [text_all_but_last removelast map last app].
    destruct n; cbn [post_loop]; [reflexivity|].
    replace (len (done ++ [x]) <=? len done + 1) with true; [reflexivity|].
    symmetry. apply Z.leb_le. rewrite len_app. change (len [x]) with 1. lia.
  - destruct n as [|n]; [simpl in Hn; lia|].
    inversion Hrest as [|? ? Hy Hrest']; subst.
    destruct Hx as (k & s & t & ->). destruct Hy as (k' & s' & t' & ->).
    rewrite post_loop_turn_after_pop.
    rewrite IH; [|now exists k', s', t' | exact Hrest' | simpl in Hn; lia].
    rewrite <- app_assoc. reflexivity.
Qed.

Lemma post_loop_before_pop (d : string) :
  forall pre done rest n,
    Forall triple pre -> Forall (fun e => empty_span e = false) pre ->
    post_loop (List.length pre + n) d (done ++ pre ++ rest) (len done) 0
    = post_loop n d ((done ++ map (with_text d) pre) ++ rest)
        (len (done ++ map (with_text d) pre)) 0.
Proof.
  induction pre as [|e pre IH]; intros done rest n Htr Hne.
  - cbn [List.length map app Nat.add]. now rewrite !app_nil_r.
  - inversion Htr as [|? ? (k & s & t & ->) Htr']; subst.
    inversion Hne as [|? ? He Hne']; subst.
    cbn [empty_span py_eq] in He.
    cbn [List.length Nat.add app]. rewrite post_loop_turn, He.
    replace (done ++ span k s t (slice d s t) :: pre ++ rest)
      with ((done ++ [span k s t (slice d s t)]) ++ pre ++ rest)
      by (rewrite <- app_assoc; reflexivity).
    replace (len done + 1) with (len (done ++ [span k s t (slice d s t)]))
      by (rewrite len_app; reflexivity).
    rewrite IH by assumption.
    cbn [map]. rewrite with_text_closed.
    replace (done ++ span k s t (slice d s t) :: map (with_text d) pre)
      with ((done ++ [span k s t (slice d s t)]) ++ map (with_text d) pre)
      by (rewrite <- app_assoc; reflexivity).
    reflexivity.
Qed.

(** X11.  The final loop of [feed] on entries that have their two
    boundaries, when one of them is empty (its start equals its end):
    the first empty entry is dropped and the entries before it get their
    text; of the entries after it, none is dropped, empty or not, and the
    last one is left without its text.  The iterator runs over the list
    that the pop has just shortened. *)
Theorem post_loop_first_empty (d : string) (pre post : list entry)
    (k : string) (s : Z) :
  Forall triple pre ->
  Forall (fun e => empty_span e = false) pre ->
  Forall triple post ->
  post_loop (List.length (pre ++ [PStr k; PInt s; PInt s] :: post)) d
    (pre ++ [PStr k; PInt s; PInt s] :: post) 0 0
  = Ok (map (with_text d) pre ++ text_all_but_last d post).
Proof.
  intros Hpre Hne Hpost.
  rewrite length_app.
  pose proof (post_loop_before_pop d pre [] ([PStr k; PInt s; PInt s] :: post)
                (List.length ([PStr k; PInt s; PInt s] :: post)) Hpre Hne) as H1.
  cbn [app] in H1. eapply eq_trans; [exact H1|]. clear H1.
  cbn [List.length]. rewrite post_loop_turn, Z.eqb_refl.
  destruct post as [|x post].
  - rewrite app_nil_r. cbn [text_all_but_last List.length post_loop].
    rewrite app_nil_r. reflexivity.
  - inversion Hpost as [|? ? Hx Hpost']; subst.
    apply post_loop_after_pop; auto. apply le_S, le_n.
Qed.

Lemma post_loop_first_empty_witness :
  post_loop
    (List.length
       ([[PStr "markdown"; PInt 0; PInt 3]]
          ++ [PStr "html"; PInt 3; PInt 3]
          :: [[PStr "markdown"; PInt 3; PInt 3]; [PStr "html"; PInt 3; PInt 5]]))
    "abcde"
    ([[PStr "markdown"; PInt 0; PInt 3]]
       ++ [PStr "html"; PInt 3; PInt 3]
       :: [[PStr "markdown"; PInt 3; PInt 3]; [PStr "html"; PInt 3; PInt 5]])
    0 0
  = Ok (map (with_text "abcde") [[PStr "markdown"; PInt 0; PInt 3]]
          ++ text_all_but_last "abcde"
               [[PStr "markdown"; PInt 3; PInt 3]; [PStr "html"; PInt 3; PInt 5]]).
Proof.
  apply (post_loop_first_empty "abcde" [[PStr "markdown"; PInt 0; PInt 3]]
           [[PStr "markdown"; PInt 3; PInt 3]; [PStr "html"; PInt 3; PInt 5]]
           "html" 3).
  - repeat constructor. now exists "markdown", 0, 3.
  - repeat constructor.
  - repeat constructor; [now exists "markdown", 3, 3 | now exists "html", 3, 5].
Defined.

(** ** Tag names are not compared *)

Lemma same_length_cases {A : Type} (o1 o2 : list A) :
  List.length o1 = List.length o2 ->
  (o1 = [] /\ o2 = [])
  \/ exists a1 x1 a2 x2,
       o1 = a1 ++ [x1] /\ o2 = a2 ++ [x2] /\ List.length a1 = List.length a2.
Proof.
  intros Hlen.
  destruct (snoc_case o1) as [-> | (a1 & x1 & ->)];
    destruct (snoc_case o2) as [-> | (a2 & x2 & ->)];
    rewrite ?length_app in Hlen; cbn [List.length] in Hlen; try lia.
  - left. auto.
  - right. exists a1, x1, a2, x2. repeat split; auto. lia.
Qed.

Ltac same_done :=
  cbn [bind same_outcome]; auto; unfold same_but_names; cbn;
  try (repeat split; auto; rewrite ?length_app; cbn [List.length]; lia).

Lemma handle_similar (e1 e2 : event) (s1 s2 : parser) :
  similar e1 e2 -> same_but_names s1 s2 ->
  same_outcome (handle e1 s1) (handle e2 s2).
Proof.
  intros Hsim (Hsl & Hse & Hda & Hd & Hlen).
  destruct s1 as [o1 sl se da d], s2 as [o2 sl2 se2 da2 d2].
  cbn [splitlist setag datag data opentags] in *. subst sl2 se2 da2 d2.
  destruct e1 as [t1 a1 p1 | t1 p1 | t1 a1 p1 | x1 p1],
           e2 as [t2 a2 p2 | t2 p2 | t2 a2 p2 | x2 p2];
    cbn [similar] in Hsim; try contradiction; cbn [handle].
  - destruct Hsim as [Himg <-]. unfold handle_starttag. rewrite <- Himg.
    destruct (String.eqb t1 "img").
    { same_done. }
    rewrite !get_offset_data. cbn [opentags splitlist setag datag data].
    destruct (same_length_cases o1 o2 Hlen)
      as [[-> ->] | (b1 & y1 & b2 & y2 & -> & -> & Hb)].
    + change (len (@nil string) =? 0) with true. cbv iota.
      destruct (da || se).
      * destruct (append_at sl (-1) (PInt (offset_of d p1))); same_done.
      * same_done.
    + rewrite !len_zero_snoc. same_done.
  - destruct Hsim as [Hname <-]. unfold handle_endtag.
    cbn [opentags splitlist setag datag data].
    destruct (same_length_cases o1 o2 Hlen)
      as [[-> ->] | (b1 & y1 & b2 & y2 & -> & -> & Hb)].
    + rewrite !py_pop_nil. reflexivity.
    + rewrite !py_pop_snoc. cbn [bind set_opentags opentags splitlist].
      rewrite !get_offset_data. cbn [data]. rewrite <- Hname.
      destruct (same_length_cases b1 b2 Hb)
        as [[-> ->] | (c1 & z1 & c2 & z2 & -> & -> & Hc)].
      * change (len (@nil string) =? 0) with true. cbv iota.
        destruct (append_at sl (-1) _); same_done.
      * rewrite !len_zero_snoc. same_done.
  - subst p2. unfold handle_startendtag. rewrite !get_offset_data.
    cbn [opentags splitlist setag datag data].
    destruct (same_length_cases o1 o2 Hlen)
      as [[-> ->] | (b1 & y1 & b2 & y2 & -> & -> & Hb)].
    + change (len (@nil string) =? 0) with true. cbv iota.
      destruct da.
      * destruct (append_at sl (-1) _); same_done.
      * same_done.
    + rewrite !len_zero_snoc. same_done.
  - subst p2. unfold handle_data. rewrite !get_offset_data.
    cbn [opentags splitlist setag datag data].
    destruct (same_length_cases o1 o2 Hlen)
      as [[-> ->] | (b1 & y1 & b2 & y2 & -> & -> & Hb)].
    + change (len (@nil string) =? 0) with true. cbn [andb].
      destruct da; cbn [negb].
      * same_done.
      * destruct se.
        -- destruct (append_at sl (-1) _); same_done.
        -- same_done.
    + rewrite !len_zero_snoc. same_done.
Qed.

Lemma run_similar (evs1 evs2 : list event) :
  Forall2 similar evs1 evs2 ->
  forall s1 s2,
    same_but_names s1 s2 -> same_outcome (run evs1 s1) (run evs2 s2).
Proof.
  induction 1 as [|e1 e2 evs1 evs2 He _ IH]; intros s1 s2 Hs; cbn [run].
  - exact Hs.
  - pose proof (handle_similar e1 e2 s1 s2 He Hs) as Hh.
    destruct (handle e1 s1) as [a|x], (handle e2 s2) as [b|y];
      cbn [same_outcome] in Hh; try contradiction; cbn [bind].
    + now apply IH.
    + exact Hh.
Qed.

Lemma close_last_similar (s1 s2 : parser) :
  same_but_names s1 s2 -> same_outcome (close_last s1) (close_last s2).
Proof.
  intros (Hsl & Hse & Hda & Hd & Hlen). unfold close_last.
  rewrite <- Hsl, <- Hd.
  destruct (py_index (splitlist s1) (-1)) as [last|]; cbn [bind same_outcome];
    [|reflexivity].
  destruct (len last =? 2).
  - destruct (append_at _ _ _); same_done.
  - same_done.
Qed.

(** X12.  The handlers compare no tag names: reports that differ only
    in tag names (an img start tag still being told from the other
    start tags, and an end tag keeping the length of its name) leave the
    same span list, or the same exception.  An end tag closes the
    innermost open tag whatever the two names are. *)
Theorem feed_ignores_tag_names (c : class_attrs) (d : string)
    (evs1 evs2 : list event) :
  Forall2 similar evs1 evs2 ->
  spans_of (feed_events (MarkdownSplitParser c) d evs1)
  = spans_of (feed_events (MarkdownSplitParser c) d evs2).
Proof.
  intros Hsim. unfold feed_events, scan.
  assert (H0 : same_but_names (set_data (MarkdownSplitParser c) d)
                 (set_data (MarkdownSplitParser c) d)).
  { repeat split; auto. }
  pose proof (run_similar evs1 evs2 Hsim _ _ H0) as Hrun.
  destruct (run evs1 _) as [a|x], (run evs2 _) as [b|y];
    cbn [same_outcome] in Hrun; try contradiction; cbn [bind];
    [|now subst].
  pose proof (close_last_similar a b Hrun) as Hclose.
  destruct (close_last a) as [pa|x], (close_last b) as [pb|y];
    cbn [same_outcome] in Hclose; try contradiction; cbn [bind];
    [|now subst].
  destruct Hclose as (Hsl & _ & _ & Hd & _). rewrite <- Hsl, <- Hd.
  destruct (post_loop _ _ _ _ _); reflexivity.
Qed.

Lemma feed_ignores_tag_names_witness :
  spans_of (feed_events (MarkdownSplitParser fresh_class) "a<div>x</div>b"
              [Data "a" (1, 0); StartTag "div" [] (1, 1); Data "x" (1, 6);
               EndTag "div" (1, 7); Data "b" (1, 13)])
  = spans_of (feed_events (MarkdownSplitParser fresh_class) "a<div>x</div>b"
                [Data "a" (1, 0); StartTag "p" [] (1, 1); Data "x" (1, 6);
                 EndTag "pre" (1, 7); Data "b" (1, 13)]).
Proof.
  apply (feed_ignores_tag_names fresh_class "a<div>x</div>b"
           [Data "a" (1, 0); StartTag "div" [] (1, 1); Data "x" (1, 6);
            EndTag "div" (1, 7); Data "b" (1, 13)]
           [Data "a" (1, 0); StartTag "p" [] (1, 1); Data "x" (1, 6);
            EndTag "pre" (1, 7); Data "b" (1, 13)]).
  repeat constructor.
Defined.

(** ** Spans in source order *)

Lemma span_order_mono (l : list entry) :
  forall from lo lo', lo <= lo' -> span_order from l lo -> span_order from l lo'.
Proof.
  induction l as [|e l IH]; intros from lo lo' Hle; cbn [span_order]; [lia|].
  intros [(k & s & t & -> & Hs & Hrest) | (k & s & -> & Hs & Hrest)].
  - left. exists k, s, t. eauto.
  - right. exists k, s. eauto.
Qed.

Lemma span_order_open (kind : string) (q : Z) (l : list entry) :
  forall from lo,
    span_order from l lo -> lo <= q ->
    span_order from (l ++ [[PStr kind; PInt q]]) (q + 1).
Proof.
  induction l as [|e l IH]; intros from lo; cbn [span_order app].
  - intros Hfrom Hq. right. exists kind, q. repeat split; lia.
  - intros [(k & s & t & -> & Hs & Hrest) | (k & s & -> & Hs & Hrest)] Hq.
    + left. exists k, s, t. eauto.
    + right. exists k, s. eauto.
Qed.

Lemma span_order_close (kind : string) (s0 q : Z) (a : list entry) :
  forall from lo,
    span_order from (a ++ [[PStr kind; PInt s0]]) lo -> lo <= q ->
    span_order from (a ++ [[PStr kind; PInt s0; PInt q]]) q.
Proof.
  induction a as [|e a IH]; intros from lo; cbn [span_order app].
  - intros [(k & s & t & E & _) | (k & s & E & Hs & Hrest)] Hq;
      [discriminate E|].
    injection E as <- <-. left. exists kind, s0, q. repeat split; lia.
  - intros [(k & s & t & -> & Hs & Hrest) | (k & s & -> & Hs & Hrest)] Hq.
    + left. exists k, s, t. eauto.
    + right. exists k, s. eauto.
Qed.

(** What one handler call does to [splitlist] during a scan on fresh
    class attributes: nothing, or the end of the last entry, or a new
    entry, or both. *)
Lemma handle_shape (d : string) (lo : Z) (ev : event) (self self' : parser) :
  scanning d lo self ->
  handle ev self = Ok self' ->
  let q := offset_of d (ev_at ev) in
  splitlist self' = splitlist self
  \/ (exists sl k s,
        splitlist self = sl ++ [[PStr k; PInt s]]
        /\ splitlist self' = sl ++ [[PStr k; PInt s; PInt (q + ev_extent ev)]]
        /\ is_end ev = true)
  \/ (exists k,
        splitlist self' = splitlist self ++ [[PStr k; PInt q]]
        /\ ev_extent ev = 1)
  \/ (exists sl k s k',
        splitlist self = sl ++ [[PStr k; PInt s]]
        /\ splitlist self'
           = (sl ++ [[PStr k; PInt s; PInt q]]) ++ [[PStr k'; PInt q]]
        /\ ev_extent ev = 1).
Proof.
  intros [Hd He Hl Hf] Hev.
  destruct self as [o sl se da dd]. cbn [data opentags splitlist setag datag] in *.
  subst dd.
  assert (Hlast : o <> [] \/ da = true \/ se = true ->
                  exists sl' k s, sl = sl' ++ [[PStr k; PInt s]]).
  { intros H. destruct (Hl H) as (sl' & e & -> & (k & s & -> & _)). eauto. }
  destruct ev as [tag attrs p | tag p | tag attrs p | text p];
    cbn [handle ev_at ev_extent is_end] in *.
  - unfold handle_starttag in Hev. destruct (String.eqb tag "img").
    { injection Hev as <-. left. reflexivity. }
    rewrite get_offset_data in Hev.
    cbn [data opentags splitlist setag datag] in Hev.
    destruct (snoc_case o) as [-> | (o' & x & ->)].
    + change (len (@nil string) =? 0) with true in Hev. cbv iota in Hev.
      destruct (da || se) eqn:Hflag.
      * destruct Hlast as (sl' & k & s & ->).
        { right. destruct da; [left | right]; auto. }
        rewrite append_at_last in Hev. cbn in Hev. injection Hev as <-.
        right. right. right. exists sl', k, s, "html". cbn. auto.
      * cbn in Hev. injection Hev as <-. right. right. left.
        exists "html". cbn. auto.
    + rewrite len_zero_snoc in Hev. cbn in Hev. injection Hev as <-.
      left. reflexivity.
  - unfold handle_endtag in Hev. cbn [opentags] in Hev.
    destruct (snoc_case o) as [-> | (o' & x & ->)].
    { rewrite py_pop_nil in Hev. discriminate. }
    rewrite py_pop_snoc in Hev.
    cbn [bind set_opentags opentags splitlist setag datag data] in Hev.
    destruct Hlast as (sl' & k & s & ->); [left; apply snoc_not_nil|].
    destruct (snoc_case o') as [-> | (o'' & y & ->)].
    + change (len (@nil string) =? 0) with true in Hev. cbv iota in Hev.
      rewrite get_offset_data in Hev. cbn [data] in Hev.
      rewrite append_at_last in Hev. cbn in Hev. injection Hev as <-.
      right. left. exists sl', k, s. cbn.
      replace (offset_of d p + (slen tag + 3))
        with (offset_of d p + slen tag + 3) by lia. auto.
    + rewrite len_zero_snoc in Hev. injection Hev as <-. left. reflexivity.
  - unfold handle_startendtag in Hev. rewrite get_offset_data in Hev.
    cbn [data opentags splitlist setag datag] in Hev.
    destruct (snoc_case o) as [-> | (o' & x & ->)].
    + change (len (@nil string) =? 0) with true in Hev. cbv iota in Hev.
      destruct da.
      * destruct Hlast as (sl' & k & s & ->); [right; left; reflexivity|].
        rewrite append_at_last in Hev. cbn in Hev. injection Hev as <-.
        right. right. right. exists sl', k, s, "html". cbn. auto.
      * cbn in Hev. injection Hev as <-. right. right. left.
        exists "html". cbn. auto.
    + rewrite len_zero_snoc in Hev. injection Hev as <-. left. reflexivity.
  - unfold handle_data in Hev. rewrite get_offset_data in Hev.
    cbn [data opentags splitlist setag datag] in Hev.
    destruct (snoc_case o) as [-> | (o' & x & ->)].
    + change (len (@nil string) =? 0) with true in Hev. cbn [andb] in Hev.
      destruct da; cbn [negb] in Hev.
      { injection Hev as <-. left. reflexivity. }
      destruct se.
      * destruct Hlast as (sl' & k & s & ->); [right; right; reflexivity|].
        rewrite append_at_last in Hev. cbn in Hev. injection Hev as <-.
        right. right. right. exists sl', k, s, "markdown". cbn. auto.
      * cbn in Hev. injection Hev as <-. right. right. left.
        exists "markdown". cbn. auto.
    + rewrite len_zero_snoc in Hev. cbn [andb] in Hev. injection Hev as <-.
      left. reflexivity.
Qed.

Lemma handle_order (d : string) (lo : Z) (ev : event) (self self' : parser) :
  scanning d lo self -> lo <= offset_of d (ev_at ev) ->
  span_order 0 (splitlist self) lo ->
  handle ev self = Ok self' ->
  span_order 0 (splitlist self') (offset_of d (ev_at ev) + ev_extent ev).
Proof.
  intros Hsc Hlo Hord Hev.
  assert (Hext : 1 <= ev_extent ev).
  { destruct ev; cbn [ev_extent]; try lia. pose proof (slen_nonneg tag). lia. }
  destruct (handle_shape d lo ev self self' Hsc Hev)
    as [-> | [(sl & k & s & Hsl & -> & _) | [(k & -> & He)
       | (sl & k & s & k' & Hsl & -> & He)]]].
  - apply (span_order_mono _ _ lo); [lia | exact Hord].
  - rewrite Hsl in Hord. apply (span_order_close _ _ _ _ _ lo); [exact Hord | lia].
  - rewrite He. apply (span_order_open _ _ _ _ lo); [exact Hord | lia].
  - rewrite He. rewrite Hsl in Hord.
    apply (span_order_open _ _ _ _ (offset_of d (ev_at ev))); [|lia].
    apply (span_order_close _ _ _ _ _ lo); [exact Hord | lia].
Qed.

Lemma run_order (d : string) (evs : list event) :
  forall lo self self',
    scanning d lo self -> span_order 0 (splitlist self) lo ->
    advancing d lo evs = true ->
    run evs self = Ok self' ->
    exists lo',
      lo' <= slen d /\ scanning d lo' self' /\ span_order 0 (splitlist self') lo'.
Proof.
  induction evs as [|ev evs IH]; intros lo self self' Hsc Hord Hadv Hrun.
  - simpl in *. injection Hrun as <-. exists lo. apply Z.leb_le in Hadv. auto.
  - simpl in Hadv. apply andb_prop in Hadv as [Hlo Hrest].
    apply Z.leb_le in Hlo. simpl in Hrun.
    destruct (handle ev self) as [self1|] eqn:Hev; [|discriminate].
    cbn [bind] in Hrun.
    eapply IH; [| |exact Hrest|exact Hrun].
    + eapply handle_scanning; eauto.
    + eapply handle_order; eauto.
Qed.

Lemma close_last_order (d : string) (lo : Z) (self pre : parser) :
  scanning d lo self -> lo <= slen d ->
  span_order 0 (splitlist self) lo ->
  close_last self = Ok pre ->
  span_order 0 (splitlist pre) (slen d).
Proof.
  intros [Hd He _ _] Hlo Hord. unfold close_last.
  destruct (snoc_case (splitlist self)) as [Hsl | (sl & e & Hsl)]; rewrite Hsl in *.
  { rewrite py_index_nil. discriminate. }
  rewrite py_index_last. cbn [bind].
  destruct (len e =? 2) eqn:Hlen.
  - rewrite append_at_last. cbn [bind]. intros E. injection E as <-.
    cbn [set_splitlist splitlist].
    apply Forall_app in He as [_ Hlast]. apply Forall_inv in Hlast.
    destruct Hlast as [(k & s & t & -> & _) | (k & s & -> & _)];
      [discriminate Hlen|].
    rewrite Hd. cbn [app]. apply (span_order_close _ _ _ _ _ lo); auto.
  - intros E. injection E as <-. rewrite Hsl.
    apply (span_order_mono _ _ lo); auto.
Qed.

Lemma span_order_in_order (d : string) (l : list entry) :
  forall from,
    Forall closed l -> span_order from l (slen d) ->
    in_order d from (map (with_text d) l).
Proof.
  induction l as [|e l IH]; intros from Hall; cbn [span_order map in_order];
    [auto|].
  inversion Hall as [|? ? Hc Hall']; subst.
  intros [(k & s & t & -> & Hs & Hrest) | (k & s & -> & _)].
  - exists k, s, t. rewrite with_text_closed. auto.
  - destruct Hc as (k' & s' & t' & E & _). discriminate E.
Qed.

(** After advancing reports, what [feed] returns is in source order. *)
Lemma feed_in_order (d : string) (evs : list event) (self : parser) :
  advancing d 0 evs = true ->
  feed_events (MarkdownSplitParser fresh_class) d evs = Ok self ->
  in_order d 0 (splitlist self).
Proof.
  intros Hadv Hfeed. unfold feed_events in Hfeed.
  destruct (scan (MarkdownSplitParser fresh_class) d evs) as [pre|] eqn:Hscan;
    [|discriminate].
  cbn [bind] in Hfeed.
  destruct (post_loop _ _ _ _ _) as [sl|] eqn:Hloop; [|discriminate].
  cbn [bind] in Hfeed. injection Hfeed as <-. cbn [set_splitlist splitlist].
  unfold scan in Hscan.
  destruct (run evs _) as [self1|] eqn:Hrun; [|discriminate].
  cbn [bind] in Hscan.
  assert (H0 : span_order 0 (splitlist (set_data (MarkdownSplitParser fresh_class) d)) 0).
  { cbn. lia. }
  destruct (run_order d evs 0 _ self1 (scanning_fresh d) H0 Hadv Hrun)
    as (lo & Hlo & Hsc & Hord).
  destruct (close_last_scanning d lo self1 pre Hsc Hlo Hscan) as [Hd Hshaped].
  pose proof (close_last_order d lo self1 pre Hsc Hlo Hord Hscan) as Hord'.
  rewrite Hd in Hloop.
  destruct (post_loop_closed d lo (splitlist pre) [] _ sl Hshaped (le_n _) Hloop)
    as [Hclosed ->].
  cbn [app]. now apply span_order_in_order.
Qed.

(** X14.  Take a parser on the module's fresh class attributes and
    reports that advance through the buffer.  Whenever [feed] returns,
    tiled or not, its spans are in source order and do not overlap: each
    starts at or after the end of the one before (the first at or after
    0), none is empty, the last ends at or before the length of the
    buffer, and each carries [d[start:end]] as text. *)
Theorem feed_spans_in_order (d : string) (evs : list event) (self : parser) :
  advancing d 0 evs = true ->
  feed_events (MarkdownSplitParser fresh_class) d evs = Ok self ->
  in_order d 0 (splitlist self).
Proof. exact (feed_in_order d evs self). Qed.

Lemma feed_spans_in_order_witness :
  in_order "<img>a<p>c" 0
    (splitlist (mkParser ["p"] [span "markdown" 5 6 "a"; span "html" 6 10 "<p>c"]
                  false false "<img>a<p>c")).
Proof.
  apply (feed_spans_in_order "<img>a<p>c"
           [StartTag "img" [] (1, 0); Data "a" (1, 5); StartTag "p" [] (1, 6);
            Data "c" (1, 9)]).
  - vm_compute. reflexivity.
  - vm_compute. reflexivity.
Defined.

(** ** The reports of the scanner advance *)

Lemma updatepos_app (a b : string) :
  forall p, updatepos (a ++ b) p = updatepos b (updatepos a p).
Proof.
  induction a as [|c a IH]; intros [l col]; cbn [append updatepos]; [reflexivity|].
  destruct (Ascii.eqb c newline); apply IH.
Qed.

Lemma updatepos_one_line (s : string) :
  forall l col,
    all_chars not_newline s = true -> updatepos s (l, col) = (l, col + slen s).
Proof.
  induction s as [|c s IH]; intros l col; cbn [all_chars updatepos].
  - intros _. change (slen "") with 0. now rewrite Z.add_0_r.
  - intros H. apply andb_prop in H as [Hc Hs]. unfold not_newline in Hc.
    apply negb_true_iff in Hc. rewrite Hc, IH, slen_cons by exact Hs.
    f_equal. lia.
Qed.

Lemma span_text_spec (s : string) :
  forall t r, span_text s = (t, r) -> s = (t ++ r)%string.
Proof.
  induction s as [|c s IH]; intros t r; cbn [span_text].
  - intros E. injection E as <- <-. reflexivity.
  - destruct (Ascii.eqb c lt_sign || Ascii.eqb c amp_sign).
    + intros E. injection E as <- <-. reflexivity.
    + destruct (span_text s) as [t' r'] eqn:Hs. intros E. injection E as <- <-.
      cbn [append]. f_equal. now apply IH.
Qed.

Lemma until_gt_spec (s : string) :
  forall b r, until_gt s = Some (b, r) -> s = (b ++ String gt_sign r)%string.
Proof.
  induction s as [|c s IH]; intros b r; cbn [until_gt]; [discriminate|].
  destruct (Ascii.eqb_spec c gt_sign) as [-> | Hc].
  - intros E. injection E as <- <-. reflexivity.
  - destruct (until_gt s) as [[t' r']|] eqn:Hs; [|discriminate].
    intros E. injection E as <- <-. cbn [append]. f_equal. now apply IH.
Qed.

Lemma lower_length (s : string) : slen (lower s) = slen s.
Proof.
  induction s as [|c s IH]; [reflexivity|].
  cbn [lower]. now rewrite !slen_cons, IH.
Qed.

Lemma namechar_one_line (c : ascii) : is_namechar c = true -> not_newline c = true.
Proof.
  intros H. unfold not_newline.
  destruct (Ascii.eqb_spec c newline) as [-> | _]; [|reflexivity].
  vm_compute in H. discriminate H.
Qed.

Lemma alpha_namechar (c : ascii) : is_alpha c = true -> is_namechar c = true.
Proof. intros H. unfold is_namechar. now rewrite H. Qed.

Lemma all_chars_impl (p q : ascii -> bool) (s : string) :
  (forall c, p c = true -> q c = true) ->
  all_chars p s = true -> all_chars q s = true.
Proof.
  intros Hpq. induction s as [|c s IH]; cbn [all_chars]; [auto|].
  intros H. apply andb_prop in H as [Hc Hs]. now rewrite (Hpq c Hc), IH.
Qed.

Lemma name_one_line (s : string) :
  is_name s = true -> all_chars not_newline s = true.
Proof.
  destruct s as [|c s]; cbn [is_name all_chars]; [discriminate|].
  intros H. apply andb_prop in H as [Hc Hs].
  rewrite (namechar_one_line c (alpha_namechar c Hc)). cbn [andb].
  exact (all_chars_impl _ _ s namechar_one_line Hs).
Qed.

Lemma drop_last_spec (s : string) :
  forall l, last_char s = Some l -> s = (drop_last s ++ String l "")%string.
Proof.
  induction s as [|c s IH]; intros l; cbn [last_char drop_last]; [discriminate|].
  destruct s as [|c' s'].
  - intros E. injection E as <-. reflexivity.
  - intros H. cbn [append]. f_equal. now apply IH.
Qed.

(** The event of a tag is reported where the tag starts; the tag, with
    its two brackets, is no shorter than the least extent of the event,
    and lies on one line. *)
Lemma tag_event_spec (body : string) (p : getpos) (ev : event) :
  tag_event body p = Some ev ->
  ev_at ev = p /\ ev_extent ev <= slen body + 2
  /\ all_chars not_newline body = true.
Proof.
  pose proof (slen_nonneg body) as Hb.
  unfold tag_event. destruct body as [|c name]; [discriminate|].
  destruct (Ascii.eqb_spec c slash_sign) as [-> | Hc].
  - destruct (is_name name) eqn:Hn; [|discriminate].
    intros E. injection E as <-. cbn [ev_at ev_extent all_chars].
    rewrite lower_length, slen_cons. repeat split; [lia|].
    now rewrite (name_one_line name Hn).
  - destruct (is_name (String c name)) eqn:Hn.
    + destruct (cdata_element _); [discriminate|].
      intros E. injection E as <-. cbn [ev_at ev_extent].
      repeat split; [lia | now apply name_one_line].
    + destruct (last_char (String c name)) as [l|] eqn:Hl; [|discriminate].
      destruct (Ascii.eqb_spec l slash_sign) as [-> | _]; [|discriminate].
      cbn [andb].
      destruct (is_name (drop_last (String c name))) eqn:Hd; [|discriminate].
      intros E. injection E as <-. cbn [ev_at ev_extent].
      repeat split; [lia|].
      rewrite (drop_last_spec _ _ Hl).
      apply all_chars_snoc; [now apply name_one_line | reflexivity].
Qed.

Lemma offset_of_updatepos (pre rest : string) :
  offset_of (pre ++ rest) (updatepos pre (1, 0)) = slen pre.
Proof.
  destruct (skip_lines_updatepos pre "" "" rest 1 eq_refl) as [Hl Hs].
  change (slen "") with 0 in *. cbn [append] in Hs.
  destruct (updatepos pre (1, 0)) as [lin col] eqn:Hp.
  cbn [fst snd] in *. unfold offset_of, get_offset. cbn [data set_data].
  rewrite Hl.
  replace (Z.to_nat (1 + Z.of_nat (newlines pre) - 1)) with (newlines pre) by lia.
  lia.
Qed.

Lemma advancing_mono (d : string) (evs : list event) (lo lo' : Z) :
  lo <= lo' -> advancing d lo' evs = true -> advancing d lo evs = true.
Proof.
  intros Hle. destruct evs as [|ev evs]; cbn [advancing].
  - intros H. apply Z.leb_le in H. apply Z.leb_le. lia.
  - intros H. apply andb_prop in H as [H1 H2]. apply Z.leb_le in H1.
    rewrite H2, andb_true_r. apply Z.leb_le. lia.
Qed.

Lemma goahead_advancing (fuel : nat) :
  forall pre raw evs,
    goahead fuel raw (updatepos pre (1, 0)) = Some evs ->
    advancing (pre ++ raw) (slen pre) evs = true.
Proof.
  induction fuel as [|fuel IH]; intros pre raw evs; cbn [goahead]; [discriminate|].
  destruct raw as [|c rest].
  - intros E. injection E as <-. cbn [advancing]. rewrite append_empty_r.
    apply Z.leb_refl.
  - destruct (Ascii.eqb_spec c lt_sign) as [-> | Hlt].
    + destruct (until_gt rest) as [[body rest']|] eqn:Hgt; [|discriminate].
      destruct (tag_event body (updatepos pre (1, 0))) as [ev|] eqn:Hev;
        [|discriminate].
      destruct (tag_event_spec _ _ _ Hev) as (Hat & Hext & Hline).
      apply until_gt_spec in Hgt. subst rest.
      set (tag := (String lt_sign body ++ String gt_sign "")%string).
      assert (Htag : (String lt_sign (body ++ String gt_sign rest'))
                     = (tag ++ rest')%string).
      { unfold tag. cbn [append]. now rewrite append_assoc. }
      assert (Hlen : slen tag = slen body + 2).
      { unfold tag. cbn [append]. rewrite slen_cons, slen_append, slen_cons.
        change (slen "") with 0. lia. }
      assert (Hpos : (fst (updatepos pre (1, 0)),
                      snd (updatepos pre (1, 0)) + slen body + 2)
                     = updatepos (pre ++ tag) (1, 0)).
      { rewrite updatepos_app. destruct (updatepos pre (1, 0)) as [l col].
        cbn [fst snd]. rewrite updatepos_one_line, Hlen; [f_equal; lia|].
        unfold tag. cbn [append all_chars].
        change (not_newline lt_sign) with true. cbn [andb].
        apply all_chars_snoc; [exact Hline | reflexivity]. }
      rewrite Hpos.
      destruct (goahead fuel rest' _) as [evs'|] eqn:Hgo; [|discriminate].
      cbn [option_map]. intros E. injection E as <-.
      apply IH in Hgo. rewrite append_assoc, <- Htag in Hgo.
      cbn [advancing]. rewrite Hat, offset_of_updatepos, Z.leb_refl.
      cbn [andb]. eapply advancing_mono; [|exact Hgo].
      rewrite slen_append. lia.
    + replace (Ascii.eqb c lt_sign) with false
        by (symmetry; now apply Ascii.eqb_neq).
      destruct (Ascii.eqb_spec c amp_sign) as [-> | Hamp]; [discriminate|].
      destruct (span_text (String c rest)) as [text rest'] eqn:Hsp.
      pose proof (span_text_spec _ _ _ Hsp) as Hraw.
      assert (Htext : 1 <= slen text).
      { cbn [span_text] in Hsp.
        replace (Ascii.eqb c lt_sign) with false in Hsp
          by (symmetry; now apply Ascii.eqb_neq).
        replace (Ascii.eqb c amp_sign) with false in Hsp
          by (symmetry; now apply Ascii.eqb_neq).
        cbn [orb] in Hsp. destruct (span_text rest) as [t' r'].
        injection Hsp as <- <-. rewrite slen_cons.
        pose proof (slen_nonneg t'). lia. }
      rewrite <- updatepos_app.
      destruct (goahead fuel rest' _) as [evs'|] eqn:Hgo; [|discriminate].
      cbn [option_map]. intros E. injection E as <-.
      apply IH in Hgo. rewrite append_assoc, <- Hraw in Hgo.
      cbn [advancing ev_at ev_extent].
      rewrite offset_of_updatepos, Z.leb_refl.
      cbn [andb]. eapply advancing_mono; [|exact Hgo].
      rewrite slen_append. lia.
Qed.



(** X15.  For every source of text and bare tags, split with a parser on
    the module's fresh class attributes: when the split returns, its
    spans are in source order, do not overlap, are not empty, lie within
    the source, and each carries its range of the source as text. *)
Theorem split_spans_in_order (d : string) (spans : list entry) :
  split fresh_class d = Some (Ok spans) -> in_order d 0 spans.
Proof.
  unfold split, feed.
  destruct (html_events d) as [evs|] eqn:Hev; cbn [option_map]; [|discriminate].
  destruct (feed_events _ d evs) as [self|] eqn:Hfeed; [|discriminate].
  intros E. injection E as <-.
  apply (feed_in_order d evs); [|exact Hfeed].
  exact (goahead_advancing _ "" d evs Hev).
Qed.

Lemma split_spans_in_order_witness :
  in_order "<img>a<p>c" 0 [span "markdown" 5 6 "a"; span "html" 6 10 "<p>c"].
Proof.
  apply (split_spans_in_order "<img>a<p>c").
  vm_compute. reflexivity.
Defined.

(** ** A call that finds the spans of an earlier one *)



Section StaleSpans.

Variables markdown2latex html2latex : pyval -> result string.



End StaleSpans.

